(** * realm-js: the authenticated request pipeline of realm-web

    A shallow embedding of
    - [packages/realm-web/src/utils/string.ts] (query-string codec),
    - [packages/realm-network-transport/src/NetworkTransport.ts]
      (the transport dispatcher), and
    - [packages/realm-web/src/Authenticator.ts] (the authenticator),
    together with the properties their specification states about them.

    JavaScript strings are sequences of 16-bit code units, objects that are
    used as dictionaries are finite maps, objects whose property order is
    observable are association lists, and asynchronous methods are
    computations in a state-and-exception monad over the part of the host
    (timers, abort controllers, the log of calls to collaborators) the code
    touches. *)

From Stdlib Require Import NArith ZArith List String Ascii Bool Lia.
From stdpp Require Import base option list gmap.
Import ListNotations.

Local Open Scope N_scope.

(** ** JavaScript strings *)

(** A string is the list of its UTF-16 code units, each a number below
    [0x10000]. *)
Abbreviation jsstring := (list N).

(** The code units of an ASCII literal. *)
Definition js (s : string) : jsstring :=
  map N_of_ascii (list_ascii_of_string s).
Arguments js s%_string.

Definition in_range (lo hi c : N) : bool := (lo <=? c) && (c <=? hi).

Definition is_lead (c : N) : bool := in_range 0xD800 0xDBFF c.
Definition is_trail (c : N) : bool := in_range 0xDC00 0xDFFF c.

(** Well-formed UTF-16: every element is a code unit and every surrogate is
    half of a lead/trail pair. *)
Fixpoint well_formed (s : jsstring) : bool :=
  match s with
  | [] => true
  | c :: r =>
      if is_lead c then
        match r with
        | c2 :: r2 => is_trail c2 && well_formed r2
        | [] => false
        end
      else if is_trail c then false
      else (c <? 0x10000) && well_formed r
  end.

(** [String.prototype.startsWith]. *)
Fixpoint startsWith (s prefix : jsstring) : bool :=
  match prefix, s with
  | [], _ => true
  | p :: prefix', c :: s' => (c =? p) && startsWith s' prefix'
  | _ :: _, [] => false
  end.

(** [String.prototype.split] with a one-code-unit separator: the result is
    never empty, and the empty string splits into one empty piece. *)
Fixpoint split (sep : N) (s : jsstring) : list jsstring :=
  match s with
  | [] => [[]]
  | c :: r =>
      if c =? sep then [] :: split sep r
      else match split sep r with
           | piece :: pieces => (c :: piece) :: pieces
           | [] => [[c]]
           end
  end.

(** [Array.prototype.join]. *)
Fixpoint join (sep : jsstring) (l : list jsstring) : jsstring :=
  match l with
  | [] => []
  | [x] => x
  | x :: r => x ++ sep ++ join sep r
  end.

(** ** Numbers

    The code never computes with a number: it tests [typeof], hands a delay
    to [setTimeout] and prints numbers into strings. Numbers are therefore
    kept abstract, with their [ToString], which writes ASCII only (digits,
    a sign, a point, an exponent, [NaN], [Infinity]). *)
Class JSNumber : Type := {
  Number : Type;
  Number_toString : Number -> jsstring;
  Number_toString_ascii : forall n, Forall (fun c => c < 128) (Number_toString n)
}.

(** The instance used for concrete runs: integers printed in decimal. *)
Fixpoint N_digits (fuel : nat) (n : N) (acc : jsstring) : jsstring :=
  match fuel with
  | O => acc
  | S fuel' =>
      let acc' := (48 + n mod 10) :: acc in
      if n / 10 =? 0 then acc' else N_digits fuel' (n / 10) acc'
  end.

Definition Z_toString (z : Z) : jsstring :=
  match z with
  | Z0 => js "0"
  | Zpos p => N_digits (N.size_nat (Npos p)) (Npos p) []
  | Zneg p => js "-" ++ N_digits (N.size_nat (Npos p)) (Npos p) []
  end.

Lemma N_digits_ascii fuel : forall n acc,
  Forall (fun c => c < 128) acc -> Forall (fun c => c < 128) (N_digits fuel n acc).
Proof.
  induction fuel as [|fuel IH]; intros n acc Hacc; cbn [N_digits]; [done|].
  assert (48 + n mod 10 < 128) by (pose proof (N.mod_lt n 10); lia).
  destruct (n / 10 =? 0); [by constructor|]. apply IH. by constructor.
Qed.

Lemma Z_toString_ascii z : Forall (fun c => c < 128) (Z_toString z).
Proof.
  destruct z as [|p|p]; cbn [Z_toString].
  - by repeat constructor.
  - apply N_digits_ascii. constructor.
  - apply Forall_app. split; [by repeat constructor|].
    apply N_digits_ascii. constructor.
Qed.

#[export] Instance Z_JSNumber : JSNumber :=
  {| Number := Z;
     Number_toString := Z_toString;
     Number_toString_ascii := Z_toString_ascii |}.

Section Values.
Context {num : JSNumber}.

(** ** Values *)

(** The scalar values a query parameter can hold:
    [string | number | boolean | undefined]. *)
Inductive Scalar : Type :=
  | SUndefined
  | SBool (b : bool)
  | SNum (n : Number)
  | SStr (s : jsstring).

(** Any value: what a JSON body decodes to, what a payload property holds.
    An object is the list of its own properties in [Object.entries] order. *)
#[warnings="-register-all"]
Inductive JSValue : Type :=
  | VUndefined
  | VNull
  | VBool (b : bool)
  | VNum (n : Number)
  | VStr (s : jsstring)
  | VArr (items : list JSValue)
  | VObj (props : list (jsstring * JSValue)).

(** The abstract operation [ToString] on scalars. *)
Definition ToString (v : Scalar) : jsstring :=
  match v with
  | SUndefined => js "undefined"
  | SBool true => js "true"
  | SBool false => js "false"
  | SNum n => Number_toString n
  | SStr s => s
  end.

Definition is_undefined (v : Scalar) : bool :=
  match v with SUndefined => true | _ => false end.

(** What reading an array slot gives: the element, or [undefined] past the
    end. *)
Definition slot (o : option jsstring) : Scalar :=
  match o with Some s => SStr s | None => SUndefined end.

(** ** Exceptions *)

Inductive ErrorClass : Type :=
  | Error_ | TypeError_ | URIError_ | SyntaxError_ | AbortError_.

(** Modelled from the spec: the class [MongoDBRealmError] of
    [./MongoDBRealmError], the structured API error; the spec has it carry
    the HTTP method, the URL, the status code, the status text and the
    server-reported payload, which are the five arguments of its
    constructor in [fetchAndParse]. *)
Record MongoDBRealmError : Type := {
  err_method : jsstring;
  err_url : jsstring;
  err_statusCode : Number;
  err_statusText : jsstring;
  err_payload : JSValue
}.

(** A thrown value: an error object of a built-in class with its [message],
    or a [MongoDBRealmError]. The collaborators reject with such values
    only (the HTTP capability with a [TypeError] or an [AbortError], the
    body readers with a [SyntaxError] or a [TypeError]). *)
Inductive Thrown : Type :=
  | JSError (cls : ErrorClass) (message : jsstring)
  | APIError (e : MongoDBRealmError).

(** [err instanceof MongoDBRealmError]. *)
Definition instanceof_MongoDBRealmError (err : Thrown) : bool :=
  match err with APIError _ => true | JSError _ _ => false end.

(** How a call ends: it returns (a promise resolves) or it throws (a
    promise rejects). *)
Inductive Outcome (A : Type) : Type :=
  | Resolved (a : A)
  | Rejected (e : Thrown).
Arguments Resolved {A} a.
Arguments Rejected {A} e.

Definition obind {A B} (o : Outcome A) (f : A -> Outcome B) : Outcome B :=
  match o with
  | Resolved a => f a
  | Rejected e => Rejected e
  end.

(** [Array.prototype.map] with a callback that may throw: elements are
    visited left to right and the first exception ends the loop. *)
Fixpoint map_throwing {A B} (f : A -> Outcome B) (l : list A)
  : Outcome (list B) :=
  match l with
  | [] => Resolved []
  | a :: r =>
      obind (f a) (fun b => obind (map_throwing f r) (fun bs => Resolved (b :: bs)))
  end.

(** ** [encodeURIComponent] and [decodeURIComponent] (ECMA-262, 18.2.6) *)

Definition URIError_malformed : Thrown :=
  JSError URIError_ (js "URI malformed").

(** uriUnescaped: letters, digits and the marks [- _ . ! ~ * ' ( )]. *)
Definition uriUnescaped (c : N) : bool :=
  in_range 65 90 c || in_range 97 122 c || in_range 48 57 c
  || (c =? 45) || (c =? 95) || (c =? 46) || (c =? 33) || (c =? 126)
  || (c =? 42) || (c =? 39) || (c =? 40) || (c =? 41).

(** The code point of a surrogate pair, and back. *)
Definition pair_code_point (lead trail : N) : N :=
  (lead - 0xD800) * 0x400 + (trail - 0xDC00) + 0x10000.

Definition utf16 (cp : N) : jsstring :=
  if cp <? 0x10000 then [cp]
  else [0xD800 + (cp - 0x10000) / 0x400; 0xDC00 + (cp - 0x10000) mod 0x400].

(** The UTF-8 octets of a code point. *)
Definition utf8 (cp : N) : list N :=
  if cp <? 0x80 then [cp]
  else if cp <? 0x800 then [0xC0 + cp / 64; 0x80 + cp mod 64]
  else if cp <? 0x10000 then
    [0xE0 + cp / 4096; 0x80 + (cp / 64) mod 64; 0x80 + cp mod 64]
  else
    [0xF0 + cp / 262144; 0x80 + (cp / 4096) mod 64;
     0x80 + (cp / 64) mod 64; 0x80 + cp mod 64].

(** Upper-case hexadecimal digit of a value below 16. *)
Definition hex_digit (d : N) : N := if d <? 10 then 48 + d else 55 + d.

(** ["%XY"] for one octet. *)
Definition escape_octet (b : N) : jsstring :=
  [37; hex_digit (b / 16); hex_digit (b mod 16)].

Definition escape_octets (bs : list N) : jsstring :=
  concat (map escape_octet bs).

(** Encode(string, unescapedSet) with the unescaped set of
    [encodeURIComponent]; an unpaired surrogate throws. *)
Fixpoint Encode (s : jsstring) : Outcome jsstring :=
  match s with
  | [] => Resolved []
  | c :: r =>
      if uriUnescaped c then obind (Encode r) (fun e => Resolved (c :: e))
      else if is_lead c then
        match r with
        | c2 :: r2 =>
            if is_trail c2 then
              obind (Encode r2) (fun e =>
                Resolved (escape_octets (utf8 (pair_code_point c c2)) ++ e))
            else Rejected URIError_malformed
        | [] => Rejected URIError_malformed
        end
      else if is_trail c then Rejected URIError_malformed
      else obind (Encode r) (fun e => Resolved (escape_octets (utf8 c) ++ e))
  end.

Definition encodeURIComponent (v : Scalar) : Outcome jsstring :=
  Encode (ToString v).

(** Value of a hexadecimal digit, either case. *)
Definition hex_value (c : N) : option N :=
  if in_range 48 57 c then Some (c - 48)
  else if in_range 65 70 c then Some (c - 55)
  else if in_range 97 102 c then Some (c - 87)
  else None.

(** Read one ["%XY"] at the head of [s]: the octet and what follows. *)
Definition read_escape (s : jsstring) : option (N * jsstring) :=
  match s with
  | p :: x :: y :: r =>
      if p =? 37 then
        match hex_value x, hex_value y with
        | Some a, Some b => Some (16 * a + b, r)
        | _, _ => None
        end
      else None
  | _ => None
  end.

(** Read [n] escaped continuation octets (top two bits [10]). *)
Fixpoint read_continuations (n : nat) (s : jsstring)
  : option (list N * jsstring) :=
  match n with
  | O => Some ([], s)
  | S n' =>
      match read_escape s with
      | Some (b, r) =>
          if in_range 0x80 0xBF b then
            match read_continuations n' r with
            | Some (bs, r') => Some (b :: bs, r')
            | None => None
            end
          else None
      | None => None
      end
  end.

(** Length of the UTF-8 sequence a first octet of 0x80 or more announces:
    the number of its leading one bits, which must be 2, 3 or 4. *)
Definition utf8_length (b : N) : option nat :=
  if in_range 0xC0 0xDF b then Some 2%nat
  else if in_range 0xE0 0xEF b then Some 3%nat
  else if in_range 0xF0 0xF7 b then Some 4%nat
  else None.

(** The code point of a multi-octet sequence, when the sequence is valid
    UTF-8: shortest form, no surrogate, at most U+10FFFF. *)
Definition utf8_code_point (b : N) (bs : list N) : option N :=
  match bs with
  | [b2] =>
      let cp := (b - 0xC0) * 64 + (b2 - 0x80) in
      if 0x80 <=? cp then Some cp else None
  | [b2; b3] =>
      let cp := (b - 0xE0) * 4096 + (b2 - 0x80) * 64 + (b3 - 0x80) in
      if (0x800 <=? cp) && negb (in_range 0xD800 0xDFFF cp) then Some cp
      else None
  | [b2; b3; b4] =>
      let cp := (b - 0xF0) * 262144 + (b2 - 0x80) * 4096
                + (b3 - 0x80) * 64 + (b4 - 0x80) in
      if in_range 0x10000 0x10FFFF cp then Some cp else None
  | _ => None
  end.

(** Decode(string, reservedSet) with the empty reserved set of
    [decodeURIComponent]. Every turn of the loop consumes at least one code
    unit; [fuel] bounds the number of turns. *)
Fixpoint Decode (fuel : nat) (s : jsstring) : Outcome jsstring :=
  match fuel with
  | O => Rejected URIError_malformed
  | S fuel' =>
      match s with
      | [] => Resolved []
      | c :: r =>
          if c =? 37 then
            match read_escape s with
            | None => Rejected URIError_malformed
            | Some (b, r1) =>
                if b <? 0x80 then
                  obind (Decode fuel' r1) (fun d => Resolved (b :: d))
                else
                  match utf8_length b with
                  | None => Rejected URIError_malformed
                  | Some n =>
                      match read_continuations (pred n) r1 with
                      | None => Rejected URIError_malformed
                      | Some (bs, r2) =>
                          match utf8_code_point b bs with
                          | None => Rejected URIError_malformed
                          | Some cp =>
                              obind (Decode fuel' r2)
                                (fun d => Resolved (utf16 cp ++ d))
                          end
                      end
                  end
            end
          else obind (Decode fuel' r) (fun d => Resolved (c :: d))
      end
  end.

Definition decodeURIComponent (v : Scalar) : Outcome jsstring :=
  let s := ToString v in Decode (S (length s)) s.

(** ** [utils/string.ts] *)

(** [Object.fromEntries]: a later entry overwrites an earlier one with the
    same key. *)
Definition Object_fromEntries (entries : list (jsstring * jsstring))
  : gmap jsstring jsstring :=
  foldl (fun o kv => <[kv.1 := kv.2]> o) ∅ entries.

(** [encodeQueryString(params)]; [params] is given by its
    [Object.entries]. *)
Definition encodeQueryString (params : list (jsstring * Scalar))
  : Outcome jsstring :=
  let filteredParams := filter (fun kv => is_undefined kv.2 = false) params in
  obind
    (map_throwing
       (fun kv => obind (encodeURIComponent kv.2) (fun v => Resolved (kv.1, v)))
       filteredParams)
    (fun encoded =>
       Resolved (join (js "&") (map (fun kv => kv.1 ++ js "=" ++ kv.2) encoded))).

(** [decodeQueryString(str)]. *)
Definition decodeQueryString (str : jsstring)
  : Outcome (gmap jsstring jsstring) :=
  obind
    (map_throwing
       (fun kvp : list jsstring =>
          let k := slot (kvp !! 0%nat) in
          let v := slot (kvp !! 1%nat) in
          obind (decodeURIComponent v) (fun d => Resolved (ToString k, d)))
       (map (split 61) (split 38 str)))
    (fun entries => Resolved (Object_fromEntries entries)).

(** [encodeUrl(url, query)]. *)
Definition encodeUrl (url : jsstring) (query : list (jsstring * Scalar))
  : Outcome jsstring :=
  obind (encodeQueryString query) (fun queryString =>
    if (0 <? length queryString)%nat then Resolved (url ++ js "?" ++ queryString)
    else Resolved url).

(** *** Vocabulary for the properties of the codec *)

(** A Unicode scalar value: a code point that is not a surrogate. *)
Definition scalar_value (cp : N) : Prop :=
  cp < 0x110000 /\ ~ (0xD800 <= cp <= 0xDFFF).

(** A string without ["&"] and without ["="]. *)
Definition query_safe (s : jsstring) : Prop :=
  Forall (fun c => c <> 38 /\ c <> 61) s.

(** The part of a component before its first ["="]: the key
    [decodeQueryString] files the component under. *)
Definition component_key (comp : jsstring) : jsstring :=
  ToString (slot (split 61 comp !! 0%nat)).

(** An entry the codec carries through: a value that is not [undefined]
    and, when it is a string, is well-formed UTF-16, under a key without
    separators. *)
Definition query_entry (kv : jsstring * Scalar) : Prop :=
  is_undefined kv.2 = false /\ query_safe kv.1
  /\ match kv.2 with
     | SStr s => well_formed s = true
     | _ => True
     end.

(** The entries of a mapping with their values coerced to strings. *)
Definition coerced (params : list (jsstring * Scalar))
  : list (jsstring * jsstring) :=
  map (fun kv => (kv.1, ToString kv.2)) params.

(** ** Asynchronous code: state and exceptions

    An [async] method is a function from the state of the host to the new
    state and the way its promise settles. [await] is sequencing. *)

Definition M (S A : Type) : Type := S -> S * Outcome A.

Definition ret {S A} (a : A) : M S A := fun s => (s, Resolved a).

Definition throw {S A} (e : Thrown) : M S A := fun s => (s, Rejected e).

(** A promise that settles without touching the state, or a synchronous
    call that may throw. *)
Definition lift {S A} (o : Outcome A) : M S A := fun s => (s, o).

Definition bind {S A B} (m : M S A) (k : A -> M S B) : M S B :=
  fun s =>
    match m s with
    | (s', Resolved a) => k a s'
    | (s', Rejected e) => (s', Rejected e)
    end.

(** [try { m } catch (err) { handler(err) }]. *)
Definition try_catch {S A} (m : M S A) (handler : Thrown -> M S A) : M S A :=
  fun s =>
    match m s with
    | (s', Resolved a) => (s', Resolved a)
    | (s', Rejected e) => handler e s'
    end.

(** [try { m } finally { cleanup }]. *)
Definition try_finally {S A} (m : M S A) (cleanup : M S unit) : M S A :=
  fun s =>
    match m s with
    | (s1, o) =>
        match cleanup s1 with
        | (s2, Resolved _) => (s2, o)
        | (s2, Rejected e) => (s2, Rejected e)
        end
    end.

Declare Scope js_scope.
Delimit Scope js_scope with js_m.
Notation "'let!' x ':=' m 'in' k" := (bind m (fun x => k))
  (at level 10, x name, m at level 100, k at level 200) : js_scope.
Local Open Scope js_scope.

(** ** [NetworkTransport.ts]: the collaborators *)

(** [Headers]: the pairs the iterator yields, names in lower case. *)
Definition Headers_get (headers : list (jsstring * jsstring)) (name : jsstring)
  : option jsstring :=
  snd <$> List.find (fun kv => bool_decide (kv.1 = name)) headers.

(** The [Response] the HTTP capability resolves with; [json] and [text] are
    what reading its body gives. *)
Record Response : Type := {
  status : Number;
  statusText : jsstring;
  ok : bool;
  headers : list (jsstring * jsstring);
  json : Outcome JSValue;
  text : Outcome jsstring
}.

(** The second argument of the HTTP capability; [init_signal] is the
    controller whose signal is attached, if any. *)
Record RequestInit : Type := {
  init_method : jsstring;
  init_headers : list (jsstring * jsstring);
  init_body : option jsstring;
  init_signal : option N
}.

(** What the capability does with one call: the timers that come due while
    the call is in flight, and how its promise settles. *)
Record NetReply : Type := {
  fired : list N;
  settled : Outcome Response
}.

(** The statics [DefaultNetworkTransport.fetch] and the built-in
    [JSON.stringify] ([None] is [undefined]). *)
Record Platform : Type := {
  DefaultNetworkTransport_fetch : jsstring -> RequestInit -> NetReply;
  JSON_stringify : JSValue -> option jsstring
}.

(** The request descriptor of the transport. *)
Record Request : Type := {
  method : jsstring;
  url : jsstring;
  body : JSValue;
  timeoutMs : option Number;
  req_headers : option (list (jsstring * jsstring))
}.

(** What [fetchWithCallbacks] hands to [onSuccess]. *)
Record RawResponse : Type := {
  statusCode : Number;
  raw_headers : gmap jsstring jsstring;
  raw_body : jsstring
}.

Record ResponseHandler : Type := {
  onSuccess : RawResponse -> Outcome unit;
  onError : Thrown -> Outcome unit
}.

(** The callback [() => { controller.abort(); }]. *)
Inductive TimerCallback : Type :=
  | abort_controller (controller : N).

Inductive Event : Type :=
  | EvNewAbortController (controller : N)
  | EvSetTimeout (id : N) (delay : Number) (callback : TimerCallback)
  | EvClearTimeout (id : N)
  | EvFetch (target : jsstring) (init : RequestInit)
  | EvOnSuccess (r : RawResponse)
  | EvOnError (e : Thrown).

(** The host: the pending timers, the controllers that were aborted, the
    next free identifiers and the log of what was called. *)
Record Host : Type := {
  timers : gmap N (Number * TimerCallback);
  aborted : gset N;
  next_timer : N;
  next_controller : N;
  log : list Event
}.

Definition record (ev : Event) (w : Host) : Host :=
  {| timers := timers w; aborted := aborted w; next_timer := next_timer w;
     next_controller := next_controller w; log := log w ++ [ev] |}.

(** [new DefaultNetworkTransport.AbortController()]. *)
Definition new_AbortController : M Host N :=
  fun w =>
    let c := next_controller w in
    (record (EvNewAbortController c)
       {| timers := timers w; aborted := aborted w; next_timer := next_timer w;
          next_controller := c + 1; log := log w |},
     Resolved c).

(** [setTimeout(callback, delay)]. *)
Definition setTimeout (callback : TimerCallback) (delay : Number) : M Host N :=
  fun w =>
    let t := next_timer w in
    (record (EvSetTimeout t delay callback)
       {| timers := <[t := (delay, callback)]> (timers w); aborted := aborted w;
          next_timer := t + 1; next_controller := next_controller w;
          log := log w |},
     Resolved t).

(** [clearTimeout(id)]: nothing happens when the timer is no longer
    pending. *)
Definition clearTimeout (id : N) : M Host unit :=
  fun w =>
    (record (EvClearTimeout id)
       {| timers := delete id (timers w); aborted := aborted w;
          next_timer := next_timer w; next_controller := next_controller w;
          log := log w |},
     Resolved tt).

(** A pending timer comes due: it leaves the pending set and its callback
    runs. *)
Definition fire (w : Host) (id : N) : Host :=
  match timers w !! id with
  | Some (_, abort_controller c) =>
      {| timers := delete id (timers w); aborted := {[c]} ∪ aborted w;
         next_timer := next_timer w; next_controller := next_controller w;
         log := log w |}
  | None => w
  end.

(** Awaiting [DefaultNetworkTransport.fetch(url, init)]. *)
Definition platform_fetch (platform : Platform) (target : jsstring)
    (init : RequestInit) : M Host Response :=
  fun w =>
    let reply := DefaultNetworkTransport_fetch platform target init in
    (foldl fire (record (EvFetch target init) w) (fired reply), settled reply).

Definition call_onSuccess (handler : ResponseHandler) (r : RawResponse)
  : M Host unit :=
  fun w => (record (EvOnSuccess r) w, onSuccess handler r).

Definition call_onError (handler : ResponseHandler) (e : Thrown)
  : M Host unit :=
  fun w => (record (EvOnError e) w, onError handler e).

(** ** [NetworkTransport.ts]: [DefaultNetworkTransport] *)

Definition DEFAULT_HEADERS : list (jsstring * jsstring) :=
  [(js "Accept", js "application/json");
   (js "Content-Type", js "application/json")].

Record TimeoutSignal : Type := {
  signal : option N;
  cancelTimeout : M Host unit
}.

Definition createTimeoutSignal (timeoutMs : option Number) : M Host TimeoutSignal :=
  match timeoutMs with
  | Some ms =>
      let! controller := new_AbortController in
      let! timeout := setTimeout (abort_controller controller) ms in
      ret {| signal := Some controller; cancelTimeout := clearTimeout timeout |}
  | None =>
      ret {| signal := None; cancelTimeout := ret tt |}
  end.

(** The private method [fetch]. *)
Definition fetch (platform : Platform) (request : Request) : M Host Response :=
  let headers :=
    match req_headers request with
    | Some h => h
    | None => DEFAULT_HEADERS
    end in
  let! ts := createTimeoutSignal (timeoutMs request) in
  try_finally
    (platform_fetch platform (url request)
       {| init_method := method request;
          init_headers := headers;
          init_body :=
            match body request with
            | VStr s => Some s
            | b => JSON_stringify platform b
            end;
          init_signal := signal ts |})
    (cancelTimeout ts).

(** [err.message] in the [catch] clause, which reads it only of an error
    that is not a [MongoDBRealmError]. *)
Definition message (err : Thrown) : jsstring :=
  match err with
  | JSError _ m => m
  | APIError _ => []
  end.

(** JavaScript truthiness of a [string | null]. *)
Definition truthy (s : option jsstring) : bool :=
  match s with
  | Some (_ :: _) => true
  | _ => false
  end.

(** [contentType.startsWith("application/json")], where [contentType] is
    known to be a string. *)
Definition is_json (contentType : option jsstring) : bool :=
  match contentType with
  | Some ct => startsWith ct (js "application/json")
  | None => false
  end.

(** The [try] block of [fetchAndParse]. *)
Definition fetchAndParse_try (platform : Platform) (request : Request)
  : M Host JSValue :=
  let! response := fetch platform request in
  let contentType := Headers_get (headers response) (js "content-type") in
  if ok response then
    match contentType with
    | None => ret VNull
    | Some ct =>
        if startsWith ct (js "application/json") then lift (json response)
        else throw (JSError Error_ (js "Expected an empty or a JSON response"))
    end
  else if truthy contentType && is_json contentType then
    let! payload := lift (json response) in
    throw (APIError {| err_method := method request;
                       err_url := url request;
                       err_statusCode := status response;
                       err_statusText := statusText response;
                       err_payload := payload |})
  else
    throw (JSError Error_
             (js "Unexpected status code (" ++ Number_toString (status response)
              ++ js " " ++ statusText response ++ js ")")).

(** The [catch] clause of [fetchAndParse]. *)
Definition fetchAndParse_catch (request : Request) (err : Thrown) : M Host JSValue :=
  if instanceof_MongoDBRealmError err then throw err
  else
    throw (JSError Error_
             (js "Request failed (" ++ method request ++ js " " ++ url request
              ++ js "): " ++ message err)).

Definition fetchAndParse (platform : Platform) (request : Request) : M Host JSValue :=
  try_catch (fetchAndParse_try platform request) (fetchAndParse_catch request).

(** [responseHeaders[key] = value] on an object literal: the name
    [__proto__] reaches the setter of [Object.prototype], which ignores a
    string, so no property is made. *)
Definition set_header (o : gmap jsstring jsstring) (kv : jsstring * jsstring)
  : gmap jsstring jsstring :=
  if bool_decide (kv.1 = js "__proto__") then o else <[kv.1 := kv.2]> o.

(** The promise chain of [fetchWithCallbacks]: a rejection anywhere before
    [.catch] reaches [handler.onError]. *)
Definition fetchWithCallbacks (platform : Platform) (request : Request)
    (handler : ResponseHandler) : M Host unit :=
  try_catch
    (let! r :=
       (let! response := fetch platform request in
        let! decodedBody := lift (text response) in
        let responseHeaders := foldl set_header ∅ (headers response) in
        ret {| statusCode := status response;
               raw_headers := responseHeaders;
               raw_body := decodedBody |}) in
     call_onSuccess handler r)
    (fun e => call_onError handler e).

(** *** Vocabulary for the properties of the transport *)

(** The [init] the private [fetch] hands to the HTTP capability when it
    starts in host state [w]. *)
Definition sent_init (platform : Platform) (request : Request) (w : Host)
  : RequestInit :=
  {| init_method := method request;
     init_headers := match req_headers request with
                     | Some h => h
                     | None => DEFAULT_HEADERS
                     end;
     init_body := match body request with
                  | VStr s => Some s
                  | b => JSON_stringify platform b
                  end;
     init_signal := match timeoutMs request with
                    | Some _ => Some (next_controller w)
                    | None => None
                    end |}.

(** What the HTTP capability answers to that call. *)
Definition reply_to (platform : Platform) (request : Request) (w : Host)
  : NetReply :=
  DefaultNetworkTransport_fetch platform (url request)
    (sent_init platform request w).

(** The events of one run of the private [fetch]. *)
Definition transport_events (platform : Platform) (request : Request)
    (w : Host) : list Event :=
  match timeoutMs request with
  | Some ms =>
      [EvNewAbortController (next_controller w);
       EvSetTimeout (next_timer w) ms (abort_controller (next_controller w));
       EvFetch (url request) (sent_init platform request w);
       EvClearTimeout (next_timer w)]
  | None => [EvFetch (url request) (sent_init platform request w)]
  end.

(** The transport error of the [catch] clause. *)
Definition request_failed (request : Request) (msg : jsstring) : Thrown :=
  JSError Error_
    (js "Request failed (" ++ method request ++ js " " ++ url request
     ++ js "): " ++ msg).

(** The raw triple of a response and the text of its body. *)
Definition raw_response (response : Response) (decodedBody : jsstring)
  : RawResponse :=
  {| statusCode := status response;
     raw_headers := foldl set_header ∅ (headers response);
     raw_body := decodedBody |}.

(** ** [Authenticator.ts] *)

(** Reading a property of a value that is neither [null] nor [undefined].
    None of the names this code reads is an index or [length], so only
    objects have them. *)
Definition get_property (v : JSValue) (name : jsstring) : JSValue :=
  match v with
  | VObj props =>
      match List.find (fun kv => bool_decide (kv.1 = name)) props with
      | Some kv => kv.2
      | None => VUndefined
      end
  | _ => VUndefined
  end.

Definition typeof (v : JSValue) : jsstring :=
  match v with
  | VUndefined => js "undefined"
  | VNull => js "object"
  | VBool _ => js "boolean"
  | VNum _ => js "number"
  | VStr _ => js "string"
  | VArr _ => js "object"
  | VObj _ => js "object"
  end.

(** [Credentials]: the payload is an object. *)
Record Credentials : Type := {
  providerName : jsstring;
  providerType : jsstring;
  payload : list (jsstring * JSValue)
}.

Record AuthResponse : Type := {
  userId : jsstring;
  accessToken : jsstring;
  refreshToken : JSValue
}.

(** What the authenticator uses of the modules that are not part of this
    development: the class [User], the value [getAppUrl] resolves to with
    its route [authProvider(name).login().url], the result of
    [OAuth2Helper.initiate] and the static
    [OAuth2Helper.decodeAuthInfo] applied to its [userAuth]. *)
Class AuthExternals : Type := {
  User : Type;
  AppUrl : Type;
  login_url : AppUrl -> jsstring -> jsstring;
  RedirectResult : Type;
  decodeAuthInfo : RedirectResult -> Outcome AuthResponse
}.

Context {ext : AuthExternals}.

(** The argument of [Fetcher.fetchJSON]. *)
Record FetcherRequest : Type := {
  fr_method : jsstring;
  fr_url : jsstring;
  fr_body : JSValue;
  fr_tokenType : jsstring;
  fr_user : option User
}.

(** [this.fetcher] and [this.oauth2]. *)
Record Authenticator : Type := {
  getAppUrl : Outcome AppUrl;
  fetchJSON : FetcherRequest -> Outcome JSValue;
  oauth2_initiate : Credentials -> Outcome RedirectResult
}.

(** The calls the authenticator makes to its collaborators. *)
Inductive Call : Type :=
  | CallOAuth2Initiate (credentials : Credentials)
  | CallGetAppUrl
  | CallFetchJSON (request : FetcherRequest).

Definition call {A} (c : Call) (result : Outcome A) : M (list Call) A :=
  fun calls => (calls ++ [c], result).

(** The test of the [if]: an OAuth 2.0 provider type and a payload with a
    string [redirectUrl]. *)
Definition is_oauth2_redirect (credentials : Credentials) : bool :=
  startsWith (providerType credentials) (js "oauth2")
  && bool_decide
       (typeof (get_property (VObj (payload credentials)) (js "redirectUrl"))
        = js "string").

(** The [TypeError] of destructuring [null] or [undefined]; the text is the
    engine's. *)
Definition destructure_error : Thrown :=
  JSError TypeError_ (js "Cannot destructure 'response' as it is null or undefined.").

(** The argument of [fetchJSON] on the direct path. *)
Definition login_request (loginUrl : jsstring) (credentials : Credentials)
    (linkWithUser : option User) : Outcome FetcherRequest :=
  obind
    (encodeUrl loginUrl
       [(js "link", match linkWithUser with
                    | Some _ => SBool true
                    | None => SUndefined
                    end)])
    (fun target =>
       Resolved {| fr_method := js "POST";
                   fr_url := target;
                   fr_body := VObj (payload credentials);
                   fr_tokenType := match linkWithUser with
                                   | Some _ => js "access"
                                   | None => js "none"
                                   end;
                   fr_user := linkWithUser |}).

(** Spreading out the values of the response and checking them. *)
Definition read_login_response (response : JSValue) : Outcome AuthResponse :=
  match response with
  | VUndefined | VNull => Rejected destructure_error
  | _ =>
      let userId := get_property response (js "user_id") in
      let accessToken := get_property response (js "access_token") in
      let refreshToken :=
        match get_property response (js "refresh_token") with
        | VUndefined => VNull
        | v => v
        end in
      match userId with
      | VStr userId =>
          match accessToken with
          | VStr accessToken =>
              Resolved {| userId := userId; accessToken := accessToken;
                          refreshToken := refreshToken |}
          | _ => Rejected (JSError Error_ (js "Expected an access token in the response"))
          end
      | _ => Rejected (JSError Error_ (js "Expected a user id in the response"))
      end
  end.

Definition authenticate (this : Authenticator) (credentials : Credentials)
    (linkWithUser : option User) : M (list Call) AuthResponse :=
  if is_oauth2_redirect credentials then
    let! result := call (CallOAuth2Initiate credentials)
                   (oauth2_initiate this credentials) in
    lift (decodeAuthInfo result)
  else
    let! appUrl := call CallGetAppUrl (getAppUrl this) in
    let loginUrl := login_url appUrl (providerName credentials) in
    let! request := lift (login_request loginUrl credentials linkWithUser) in
    let! response := call (CallFetchJSON request) (fetchJSON this request) in
    lift (read_login_response response).

(** *** Vocabulary for the properties of the authenticator *)

(** The test of the branch in the words of the specification. *)
Definition oauth2_with_redirect (credentials : Credentials) : Prop :=
  startsWith (providerType credentials) (js "oauth2") = true
  /\ exists s,
       get_property (VObj (payload credentials)) (js "redirectUrl") = VStr s.

(** The request of the direct path, written out. *)
Definition direct_request (appUrl : AppUrl) (credentials : Credentials)
    (linkWithUser : option User) : FetcherRequest :=
  {| fr_method := js "POST";
     fr_url := login_url appUrl (providerName credentials)
               ++ match linkWithUser with
                  | Some _ => js "?link=true"
                  | None => []
                  end;
     fr_body := VObj (payload credentials);
     fr_tokenType := match linkWithUser with
                     | Some _ => js "access"
                     | None => js "none"
                     end;
     fr_user := linkWithUser |}.

Definition nullish (v : JSValue) : bool :=
  match v with
  | VUndefined | VNull => true
  | _ => false
  end.

End Values.

Arguments Resolved {num A} a.
Arguments Rejected {num A} e.

(** ** Concrete hosts and collaborators, for runs on concrete inputs *)

(** A host with nothing pending. *)
Definition idle : Host :=
  {| timers := ∅; aborted := ∅; next_timer := 0; next_controller := 0;
     log := [] |}.

(** [JSON.stringify] on the bodies the runs below send: none sends a
    string, an array or an object through it. *)
Definition stringify_plain (v : JSValue) : option jsstring :=
  match v with
  | VNull => Some (js "null")
  | VBool true => Some (js "true")
  | VBool false => Some (js "false")
  | VNum n => Some (Z_toString n)
  | _ => None
  end.

(** An HTTP capability that answers every call with [reply]. *)
Definition answering (reply : NetReply) : Platform :=
  {| DefaultNetworkTransport_fetch := fun _ _ => reply;
     JSON_stringify := stringify_plain |}.

Definition get_y : Request :=
  {| method := js "GET"; url := js "https://x/y"; body := VUndefined;
     timeoutMs := None; req_headers := None |}.

Definition get_y_timeout : Request :=
  {| method := js "GET"; url := js "https://x/y"; body := VUndefined;
     timeoutMs := Some 5000%Z; req_headers := None |}.

Definition json_headers : list (jsstring * jsstring) :=
  [(js "content-type", js "application/json; charset=utf-8")].

(** 200 with the JSON body [{"a":1}]. *)
Definition response_200 : Response :=
  {| status := 200%Z; statusText := js "OK"; ok := true;
     headers := json_headers;
     json := Resolved (VObj [(js "a", VNum 1%Z)]);
     text := Resolved (js "{" ++ [34] ++ js "a" ++ [34] ++ js ":1}") |}.

(** 401 with the JSON body [{"error":"invalid session"}]. *)
Definition response_401 : Response :=
  {| status := 401%Z; statusText := js "Unauthorized"; ok := false;
     headers := json_headers;
     json := Resolved (VObj [(js "error", VStr (js "invalid session"))]);
     text := Resolved (js "{" ++ [34] ++ js "error" ++ [34] ++ js ":" ++ [34]
                       ++ js "invalid session" ++ [34] ++ js "}") |}.

(** 204 without a content type. *)
Definition response_204 : Response :=
  {| status := 204%Z; statusText := js "No Content"; ok := true;
     headers := [];
     json := Rejected (JSError SyntaxError_ (js "Unexpected end of JSON input"));
     text := Resolved [] |}.

Definition boom : Thrown := JSError Error_ (js "boom").

(** A handler whose [onSuccess] throws. *)
Definition throwing_handler : ResponseHandler :=
  {| onSuccess := fun _ => Rejected boom; onError := fun _ => Resolved tt |}.

(** Collaborators of the authenticator: users and application URLs are
    strings, and the redirect result already holds the decoded session. *)
Definition sample_externals : AuthExternals :=
  {| User := jsstring;
     AppUrl := jsstring;
     login_url := fun appUrl name =>
       appUrl ++ js "/auth/providers/" ++ name ++ js "/login";
     RedirectResult := AuthResponse;
     decodeAuthInfo := fun r => Resolved r |}.

(** An authenticator whose login endpoint answers [response]. *)
Definition logging_in (response : JSValue)
  : Authenticator (ext := sample_externals) :=
  @Build_Authenticator Z_JSNumber sample_externals
    (Resolved (js "https://x/app"))
    (fun _ => Resolved response)
    (fun _ => Rejected (JSError Error_ (js "not completed"))).

Definition local_userpass : Credentials :=
  {| providerName := js "local-userpass";
     providerType := js "local-userpass";
     payload := [(js "username", VStr (js "a")); (js "password", VStr (js "b"))] |}.

Definition oauth2_google : Credentials :=
  {| providerName := js "oauth2-google";
     providerType := js "oauth2-google";
     payload := [(js "redirectUrl", VStr (js "https://x/redirect"))] |}.

(** ** More of the code: [generateRandomString] and vocabulary *)

Section MoreDefinitions.
Context {num : JSNumber}.

(** [generateRandomString(length, alphabet)], for a [length] that is a
    non-negative integer. [draw i n] stands for
    [Math.floor(Math.random() * n)] at the [i]-th turn of the loop;
    [alphabet[index]] is a string of one code unit, or [undefined] past the
    end, and [+=] appends its string form. *)
Fixpoint generateRandomString_loop (draw : nat -> N -> N) (i : nat)
    (turns : nat) (alphabet result : jsstring) : jsstring :=
  match turns with
  | O => result
  | S turns' =>
      let index := draw i (N.of_nat (length alphabet)) in
      let picked := slot ((fun c => [c]) <$> alphabet !! N.to_nat index) in
      generateRandomString_loop draw (S i) turns' alphabet
        (result ++ ToString picked)
  end.

Definition generateRandomString (draw : nat -> N -> N) (length : nat)
    (alphabet : jsstring) : jsstring :=
  generateRandomString_loop draw 0 length alphabet [].

(** The value [decodeQueryString] decodes for a component: what stands
    between its first and its second ["="], or [undefined]. *)
Definition component_value (comp : jsstring) : Scalar :=
  slot (split 61 comp !! 1%nat).

(** A scalar whose string, if it is one, consists of code units. *)
Definition code_units (v : Scalar) : Prop :=
  match v with
  | SStr s => Forall (fun c => c < 0x10000) s
  | _ => True
  end.

(** A scalar that [encodeURIComponent] accepts. *)
Definition encodable (v : Scalar) : bool :=
  match v with
  | SStr s => well_formed s
  | _ => true
  end.

(** The calls of the HTTP capability in a log. *)
Definition fetch_calls (events : list Event) : list (jsstring * RequestInit) :=
  omap (fun ev => match ev with
                  | EvFetch target init => Some (target, init)
                  | _ => None
                  end) events.

End MoreDefinitions.

(** 200 with an HTML body. *)
Definition response_html : Response :=
  {| status := 200%Z; statusText := js "OK"; ok := true;
     headers := [(js "content-type", js "text/html")];
     json := Rejected (JSError SyntaxError_ (js "Unexpected token < in JSON"));
     text := Resolved (js "<html></html>") |}.

(** 502 with a plain-text body. *)
Definition response_502 : Response :=
  {| status := 502%Z; statusText := js "Bad Gateway"; ok := false;
     headers := [(js "content-type", js "text/plain")];
     json := Rejected (JSError SyntaxError_ (js "Unexpected token B in JSON"));
     text := Resolved (js "Bad Gateway") |}.

(** A handler whose [onError] throws what it is given. *)
Definition failing_handler : ResponseHandler :=
  {| onSuccess := fun _ => Resolved tt; onError := fun e => Rejected e |}.

(** * Properties *)

(** Linear arithmetic over [N] with division and remainder by constants. *)
Ltac nlia := zify; Z.to_euclidean_division_equations; lia.

(** Case analysis on every comparison of the goal; the branches that
    arithmetic excludes are closed on the way. *)
Ltac cmp_cases :=
  repeat match goal with
  | |- context [?a <=? ?b] => destruct (N.leb_spec a b); try nlia
  | |- context [?a <? ?b] => destruct (N.ltb_spec a b); try nlia
  | |- context [?a =? ?b] => destruct (N.eqb_spec a b); try nlia
  end.

Lemma in_range_true lo hi c : in_range lo hi c = true <-> lo <= c <= hi.
Proof. unfold in_range. rewrite andb_true_iff, N.leb_le, N.leb_le. tauto. Qed.

Lemma in_range_false lo hi c : in_range lo hi c = false <-> c < lo \/ hi < c.
Proof. unfold in_range. rewrite andb_false_iff, !N.leb_gt. tauto. Qed.

Lemma hex_value_hex_digit d : d < 16 -> hex_value (hex_digit d) = Some d.
Proof.
  intros Hd. unfold hex_value, hex_digit, in_range.
  cmp_cases; simpl; f_equal; nlia.
Qed.

Lemma hex_digit_safe d : hex_digit d <> 38 /\ hex_digit d <> 61 /\ hex_digit d <> 37.
Proof. unfold hex_digit. cmp_cases. Qed.

(** ** The codec *)

Section CodecFacts.
Context {num : JSNumber}.

(** *** [decodeURIComponent] undoes [encodeURIComponent] *)

Lemma read_escape_octet b r :
  b < 256 -> read_escape (escape_octet b ++ r) = Some (b, r).
Proof.
  intros Hb. unfold escape_octet, read_escape. cbn [app].
  rewrite N.eqb_refl, !hex_value_hex_digit by nlia.
  do 2 f_equal. nlia.
Qed.

Lemma escape_octets_cons b bs r :
  escape_octets (b :: bs) ++ r = escape_octet b ++ (escape_octets bs ++ r).
Proof. unfold escape_octets. cbn [map concat]. by rewrite <- app_assoc. Qed.

Lemma read_continuations_octets bs r :
  Forall (fun b => 0x80 <= b <= 0xBF) bs ->
  read_continuations (length bs) (escape_octets bs ++ r) = Some (bs, r).
Proof.
  induction 1 as [|b bs Hb _ IH]; [done|].
  rewrite escape_octets_cons. cbn [length read_continuations].
  rewrite read_escape_octet by lia.
  rewrite (proj2 (in_range_true _ _ _) Hb). by rewrite IH.
Qed.

Lemma Decode_plain f c r :
  c <> 37 ->
  Decode (S f) (c :: r) = obind (Decode f r) (fun d => Resolved (c :: d)).
Proof. intros Hc. cbn [Decode]. by destruct (N.eqb_spec c 37). Qed.

Lemma Decode_escape f s b r1 :
  read_escape s = Some (b, r1) ->
  Decode (S f) s =
    if b <? 0x80 then obind (Decode f r1) (fun d => Resolved (b :: d))
    else match utf8_length b with
         | None => Rejected URIError_malformed
         | Some n =>
             match read_continuations (pred n) r1 with
             | None => Rejected URIError_malformed
             | Some (bs, r2) =>
                 match utf8_code_point b bs with
                 | None => Rejected URIError_malformed
                 | Some cp => obind (Decode f r2) (fun d => Resolved (utf16 cp ++ d))
                 end
             end
         end.
Proof.
  intros Hs. destruct s as [|c r]; [done|].
  cbn [Decode]. rewrite Hs.
  destruct (N.eqb_spec c 37) as [->|Hc]; [done|].
  exfalso. unfold read_escape in Hs.
  destruct r as [|x [|y r]]; try done.
  by destruct (N.eqb_spec c 37).
Qed.

Lemma Decode_utf8 f cp r :
  scalar_value cp ->
  Decode (S f) (escape_octets (utf8 cp) ++ r)
  = obind (Decode f r) (fun d => Resolved (utf16 cp ++ d)).
Proof.
  intros [Hmax Hsur]. unfold utf8.
  destruct (N.ltb_spec cp 0x80) as [H1|H1].
  { rewrite escape_octets_cons.
    rewrite (Decode_escape f _ cp (escape_octets [] ++ r)) by (apply read_escape_octet; lia).
    rewrite (proj2 (N.ltb_lt _ _) H1). unfold utf16.
    by rewrite (proj2 (N.ltb_lt cp 0x10000)) by lia. }
  destruct (N.ltb_spec cp 0x800) as [H2|H2].
  { rewrite escape_octets_cons.
    erewrite Decode_escape by (apply read_escape_octet; nlia).
    rewrite (proj2 (N.ltb_ge _ _)) by nlia.
    replace (utf8_length (0xC0 + cp / 64)) with (Some 2%nat)
      by (unfold utf8_length, in_range; cmp_cases; done).
    change (pred 2) with (length [0x80 + cp mod 64]).
    rewrite read_continuations_octets by (repeat constructor; nlia).
    unfold utf8_code_point.
    replace ((0xC0 + cp / 64 - 0xC0) * 64 + (0x80 + cp mod 64 - 0x80)) with cp by nlia.
    by rewrite (proj2 (N.leb_le _ _)) by lia. }
  destruct (N.ltb_spec cp 0x10000) as [H3|H3].
  { rewrite escape_octets_cons.
    erewrite Decode_escape by (apply read_escape_octet; nlia).
    rewrite (proj2 (N.ltb_ge _ _)) by nlia.
    replace (utf8_length (0xE0 + cp / 4096)) with (Some 3%nat)
      by (unfold utf8_length, in_range; cmp_cases; done).
    change (pred 3) with (length [0x80 + (cp / 64) mod 64; 0x80 + cp mod 64]).
    rewrite read_continuations_octets by (repeat constructor; nlia).
    unfold utf8_code_point.
    replace ((0xE0 + cp / 4096 - 0xE0) * 4096 + (0x80 + (cp / 64) mod 64 - 0x80) * 64
             + (0x80 + cp mod 64 - 0x80)) with cp by nlia.
    rewrite (proj2 (N.leb_le _ _)) by lia.
    by rewrite (proj2 (in_range_false _ _ _)) by lia. }
  rewrite escape_octets_cons.
  erewrite Decode_escape by (apply read_escape_octet; nlia).
  rewrite (proj2 (N.ltb_ge _ _)) by nlia.
  replace (utf8_length (0xF0 + cp / 262144)) with (Some 4%nat)
    by (unfold utf8_length, in_range; cmp_cases; done).
  change (pred 4) with
    (length [0x80 + (cp / 4096) mod 64; 0x80 + (cp / 64) mod 64; 0x80 + cp mod 64]).
  rewrite read_continuations_octets by (repeat constructor; nlia).
  unfold utf8_code_point.
  replace ((0xF0 + cp / 262144 - 0xF0) * 262144 + (0x80 + (cp / 4096) mod 64 - 0x80) * 4096
           + (0x80 + (cp / 64) mod 64 - 0x80) * 64 + (0x80 + cp mod 64 - 0x80))
    with cp by nlia.
  by rewrite (proj2 (in_range_true _ _ _)) by lia.
Qed.


Lemma escape_utf8_nonempty cp : (0 < length (escape_octets (utf8 cp)))%nat.
Proof.
  unfold utf8. cmp_cases; cbn; lia.
Qed.

Lemma escape_octets_safe bs : query_safe (escape_octets bs).
Proof.
  induction bs as [|b bs IH]; [constructor|].
  unfold escape_octets. cbn [map concat]. apply Forall_app. split; [|exact IH].
  unfold escape_octet.
  pose proof (hex_digit_safe (b / 16)). pose proof (hex_digit_safe (b mod 16)).
  repeat constructor; intuition lia.
Qed.

Lemma uriUnescaped_plain c :
  uriUnescaped c = true ->
  c <> 37 /\ c <> 38 /\ c <> 61 /\ c < 128.
Proof.
  unfold uriUnescaped, in_range. intros Hc.
  repeat split; try intros ->; try done.
  revert Hc. cmp_cases; done.
Qed.

Lemma utf16_pair c c2 :
  is_lead c = true -> is_trail c2 = true ->
  scalar_value (pair_code_point c c2) /\ utf16 (pair_code_point c c2) = [c; c2].
Proof.
  unfold is_lead, is_trail. rewrite !in_range_true. intros Hc Hc2.
  unfold scalar_value, utf16, pair_code_point. split; [nlia|].
  rewrite (proj2 (N.ltb_ge _ _)) by nlia. f_equal; [|f_equal]; nlia.
Qed.

Lemma Encode_Decode n : forall s,
  (length s <= n)%nat -> well_formed s = true ->
  exists e, Encode s = Resolved e /\ query_safe e /\
            forall f, (length e < f)%nat -> Decode f e = Resolved s.
Proof.
  induction n as [|n IH]; intros s Hlen Hwf.
  { destruct s; [|cbn in Hlen; lia]. exists []. repeat split; [constructor|].
    intros [|f] ?; [lia|done]. }
  destruct s as [|c r].
  { exists []. repeat split; [constructor|]. intros [|f] ?; [lia|done]. }
  cbn [Encode]. cbn [well_formed] in Hwf. cbn [length] in Hlen.
  destruct (uriUnescaped c) eqn:Hun.
  { destruct (uriUnescaped_plain c Hun) as (H37 & H38 & H61 & H128).
    unfold is_lead, is_trail in Hwf.
    rewrite (proj2 (in_range_false 0xD800 0xDBFF c)) in Hwf by lia.
    rewrite (proj2 (in_range_false 0xDC00 0xDFFF c)) in Hwf by lia.
    apply andb_true_iff in Hwf as [_ Hwf].
    destruct (IH r ltac:(lia) Hwf) as (e & -> & Hsafe & Hdec).
    exists (c :: e). repeat split; [by constructor|].
    intros [|f] Hf; [lia|]. cbn [length] in Hf.
    rewrite Decode_plain by done. by rewrite Hdec by lia. }
  destruct (is_lead c) eqn:Hlead.
  { destruct r as [|c2 r2]; [done|]. apply andb_true_iff in Hwf as [Htrail Hwf].
    rewrite Htrail. cbn [length] in Hlen.
    destruct (IH r2 ltac:(lia) Hwf) as (e & -> & Hsafe & Hdec).
    destruct (utf16_pair c c2 Hlead Htrail) as [Hsc H16].
    eexists. repeat split.
    - apply Forall_app. split; [apply escape_octets_safe|exact Hsafe].
    - intros [|f] Hf; [lia|]. rewrite length_app in Hf.
      pose proof (escape_utf8_nonempty (pair_code_point c c2)).
      rewrite Decode_utf8 by done. rewrite Hdec by lia. cbn [obind].
      by rewrite H16. }
  destruct (is_trail c) eqn:Htrail; [done|].
  apply andb_true_iff in Hwf as [Hc Hwf]. apply N.ltb_lt in Hc.
  destruct (IH r ltac:(lia) Hwf) as (e & -> & Hsafe & Hdec).
  assert (Hsc : scalar_value c).
  { unfold is_lead, is_trail in *. apply in_range_false in Hlead, Htrail.
    unfold scalar_value. lia. }
  eexists. repeat split.
  - apply Forall_app. split; [apply escape_octets_safe|exact Hsafe].
  - intros [|f] Hf; [lia|]. rewrite length_app in Hf.
    pose proof (escape_utf8_nonempty c).
    rewrite Decode_utf8 by done. rewrite Hdec by lia. cbn [obind].
    unfold utf16. by rewrite (proj2 (N.ltb_lt _ _) Hc).
Qed.

Lemma ascii_well_formed s :
  Forall (fun c => c < 128) s -> well_formed s = true.
Proof.
  induction 1 as [|c s Hc _ IH]; [done|]. cbn [well_formed].
  unfold is_lead, is_trail.
  rewrite (proj2 (in_range_false 0xD800 0xDBFF c)) by lia.
  rewrite (proj2 (in_range_false 0xDC00 0xDFFF c)) by lia.
  rewrite IH. by rewrite (proj2 (N.ltb_lt c 0x10000)) by lia.
Qed.

Lemma ToString_well_formed v :
  match v with
  | SStr s => well_formed s = true
  | _ => True
  end ->
  well_formed (ToString v) = true.
Proof.
  destruct v as [|[]|n|s]; try done.
  intros _. apply ascii_well_formed, Number_toString_ascii.
Qed.

(** [Decode] never stops for want of fuel: more than the length of the
    string is enough, and then the amount does not matter. *)
Lemma read_escape_length s b r :
  read_escape s = Some (b, r) -> (length s = 3 + length r)%nat.
Proof.
  unfold read_escape. destruct s as [|p [|x [|y r']]]; try done.
  destruct (p =? 37); [|done].
  destruct (hex_value x); [|done]. destruct (hex_value y); [|done].
  by intros [= _ ->].
Qed.

Lemma read_continuations_length n : forall s bs r,
  read_continuations n s = Some (bs, r) -> (length r <= length s)%nat.
Proof.
  induction n as [|n IH]; intros s bs r; cbn [read_continuations].
  - by intros [= _ ->].
  - destruct (read_escape s) as [[b r1]|] eqn:Hesc; [|done].
    destruct (in_range 0x80 0xBF b); [|done].
    destruct (read_continuations n r1) as [[bs' r']|] eqn:Hrest; [|done].
    intros [= _ <-]. apply read_escape_length in Hesc. apply IH in Hrest. lia.
Qed.

Lemma Decode_fuel f : forall f' s,
  (length s < f)%nat -> (length s < f')%nat -> Decode f s = Decode f' s.
Proof.
  induction f as [|f IH]; intros f' s Hf Hf'; [lia|].
  destruct f' as [|f']; [lia|].
  destruct s as [|c r]; [done|]. cbn [Decode length] in *.
  destruct (c =? 37).
  - destruct (read_escape (c :: r)) as [[b r1]|] eqn:Hesc; [|done].
    apply read_escape_length in Hesc. cbn [length] in Hesc.
    destruct (b <? 0x80); [by rewrite (IH f' r1) by lia|].
    destruct (utf8_length b) as [n|]; [|done].
    destruct (read_continuations (pred n) r1) as [[bs r2]|] eqn:Hrest; [|done].
    apply read_continuations_length in Hrest.
    destruct (utf8_code_point b bs); [|done].
    by rewrite (IH f' r2) by lia.
  - by rewrite (IH f' r) by lia.
Qed.

Lemma encodeURIComponent_roundtrip v :
  well_formed (ToString v) = true ->
  exists e, encodeURIComponent v = Resolved e /\ query_safe e /\
            decodeURIComponent (SStr e) = Resolved (ToString v).
Proof.
  intros Hwf. destruct (Encode_Decode _ _ (le_n _) Hwf) as (e & He & Hsafe & Hdec).
  exists e. repeat split; [done..|]. apply Hdec. cbn [ToString]. lia.
Qed.

(** *** [split] undoes [join] *)

Lemma split_no_sep sep s : Forall (fun c => c <> sep) s -> split sep s = [s].
Proof.
  induction 1 as [|c s Hc _ IH]; [done|].
  cbn [split]. destruct (N.eqb_spec c sep); [done|]. by rewrite IH.
Qed.

Lemma split_app_sep sep a b :
  Forall (fun c => c <> sep) a -> split sep (a ++ sep :: b) = a :: split sep b.
Proof.
  induction 1 as [|c a Hc _ IH]; cbn [app split].
  - by rewrite N.eqb_refl.
  - destruct (N.eqb_spec c sep); [done|]. by rewrite IH.
Qed.

Lemma split_join sep pieces :
  pieces <> [] -> Forall (Forall (fun c => c <> sep)) pieces ->
  split sep (join [sep] pieces) = pieces.
Proof.
  intros Hne Hall. induction Hall as [|p ps Hp Hps IH]; [done|].
  destruct ps as [|q ps].
  - cbn [join]. by apply split_no_sep.
  - cbn [join]. cbn [app]. rewrite split_app_sep by done.
    f_equal. by apply IH.
Qed.


(** *** [Object.fromEntries] *)

Lemma Object_fromEntries_acc (l : list (jsstring * jsstring)) (m : gmap jsstring jsstring) :
  NoDup l.*1 ->
  foldl (fun o kv => <[kv.1 := kv.2]> o) m l = list_to_map l ∪ m.
Proof.
  revert m. induction l as [|[k v] l IH]; intros m Hnd.
  - cbn. by rewrite (left_id_L ∅ (∪)).
  - cbn [foldl fmap list_fmap fst snd] in *. apply NoDup_cons in Hnd as [Hk Hnd].
    rewrite IH by done. cbn [list_to_map foldr uncurry]. cbn.
    rewrite <- insert_union_l. rewrite insert_union_r; [done|].
    by apply not_elem_of_list_to_map_1.
Qed.

Lemma Object_fromEntries_NoDup (l : list (jsstring * jsstring)) :
  NoDup l.*1 -> Object_fromEntries l = list_to_map l.
Proof.
  intros Hnd. unfold Object_fromEntries. rewrite Object_fromEntries_acc by done.
  by rewrite (right_id_L ∅ (∪)).
Qed.

Lemma Object_fromEntries_last (l1 l2 : list (jsstring * jsstring)) k v :
  k ∉ l2.*1 -> Object_fromEntries (l1 ++ (k, v) :: l2) !! k = Some v.
Proof.
  unfold Object_fromEntries. rewrite foldl_app. cbn [foldl fst snd].
  generalize (foldl (fun (o : gmap jsstring jsstring) kv => <[kv.1 := kv.2]> o) ∅ l1).
  intros m.
  assert (Hm : <[k:=v]> m !! k = Some v) by apply lookup_insert_eq.
  revert Hm. generalize (<[k:=v]> m). clear m.
  induction l2 as [|[k' v'] l2 IH]; intros m Hm Hk; [done|].
  cbn [foldl fst snd]. cbn [fmap list_fmap fst] in Hk.
  apply not_elem_of_cons in Hk as [Hne Hk].
  apply IH; [|done]. by rewrite lookup_insert_ne.
Qed.

(** *** [decodeQueryString] after [encodeQueryString] *)

Lemma filter_defined params :
  Forall query_entry params ->
  filter (fun kv : jsstring * Scalar => is_undefined kv.2 = false) params = params.
Proof.
  induction 1 as [|kv l [Hu _] _ IH]; [done|].
  rewrite filter_cons_True by done. by rewrite IH.
Qed.

Lemma encode_entries params :
  Forall query_entry params ->
  exists encoded,
    map_throwing
      (fun kv : jsstring * Scalar =>
         obind (encodeURIComponent kv.2) (fun v => Resolved (kv.1, v))) params
    = Resolved encoded /\
    Forall2 (fun kv ev => ev.1 = kv.1 /\ query_safe kv.1 /\ query_safe ev.2 /\
                          decodeURIComponent (SStr ev.2) = Resolved (ToString kv.2))
            params encoded.
Proof.
  induction 1 as [|kv l (_ & Hk & Hwf) _ (encoded & IHe & IHf)].
  - exists []. by split; [|constructor].
  - apply ToString_well_formed in Hwf.
    destruct (encodeURIComponent_roundtrip _ Hwf) as (e & He & Hsafe & Hdec).
    exists ((kv.1, e) :: encoded). cbn [map_throwing]. rewrite He. cbn [obind].
    rewrite IHe. cbn [obind]. split; [done|]. by constructor.
Qed.

Lemma query_safe_amp s : query_safe s -> Forall (fun c => c <> 38) s.
Proof. intros Hs. eapply Forall_impl; [exact Hs|]. by intros c [? ?]. Qed.

Lemma query_safe_eq s : query_safe s -> Forall (fun c => c <> 61) s.
Proof. intros Hs. eapply Forall_impl; [exact Hs|]. by intros c [? ?]. Qed.

Lemma decode_entries params encoded :
  Forall2 (fun kv ev => ev.1 = kv.1 /\ query_safe kv.1 /\ query_safe ev.2 /\
                        decodeURIComponent (SStr ev.2) = Resolved (ToString kv.2))
          params encoded ->
  map_throwing
    (fun kvp : list jsstring =>
       obind (decodeURIComponent (slot (kvp !! 1%nat)))
             (fun d => Resolved (ToString (slot (kvp !! 0%nat)), d)))
    (map (split 61) (map (fun kv => kv.1 ++ js "=" ++ kv.2) encoded))
  = Resolved (coerced params).
Proof.
  induction 1 as [|kv ev l l' (Hk & Hks & Hvs & Hdec) _ IH]; [done|].
  cbn [map map_throwing coerced]. unfold coerced in IH. rewrite IH.
  change (js "=") with [61]. cbn [app]. rewrite <- Hk in Hks.
  rewrite split_app_sep by by apply query_safe_eq.
  rewrite split_no_sep by by apply query_safe_eq.
  cbn [lookup list_lookup slot]. rewrite Hdec. cbn [obind ToString].
  by rewrite Hk.
Qed.

Lemma pieces_safe params encoded :
  Forall2 (fun kv ev => ev.1 = kv.1 /\ query_safe kv.1 /\ query_safe ev.2 /\
                        decodeURIComponent (SStr ev.2) = Resolved (ToString kv.2))
          params encoded ->
  Forall (Forall (fun c => c <> 38))
         (map (fun kv => kv.1 ++ js "=" ++ kv.2) encoded).
Proof.
  induction 1 as [|kv ev l l' (Hk & Hks & Hvs & _) _ IH]; [constructor|].
  cbn [map]. constructor; [|exact IH].
  rewrite <- Hk in Hks. apply Forall_app. split; [by apply query_safe_amp|].
  change (js "=") with [61]. cbn [app]. constructor; [done|by apply query_safe_amp].
Qed.

(** Claim C9, as amended. For every non-empty mapping [params] (given by
    its entries, keys distinct) of scalar values none of which is
    [undefined], whose keys contain neither ["&"] nor ["="] and whose
    string values have no unpaired surrogate, [encodeQueryString] returns
    a string and [decodeQueryString] of that string is exactly the mapping
    of the keys of [params] to the string forms of their values. *)
Theorem query_round_trip (params : list (jsstring * Scalar)) :
  params <> [] ->
  NoDup params.*1 ->
  Forall query_entry params ->
  exists q,
    encodeQueryString params = Resolved q /\
    decodeQueryString q = Resolved (list_to_map (coerced params)).
Proof.
  intros Hne Hnd Hall. unfold encodeQueryString.
  rewrite filter_defined by done.
  destruct (encode_entries params Hall) as (encoded & -> & Hf2).
  cbn [obind]. eexists. split; [reflexivity|].
  unfold decodeQueryString. change (js "&") with [38].
  rewrite split_join.
  - rewrite (decode_entries params encoded Hf2). cbn [obind].
    rewrite Object_fromEntries_NoDup; [done|].
    unfold coerced. rewrite <- list_fmap_compose.
    by erewrite list_fmap_ext; [exact Hnd|].
  - apply Forall2_length in Hf2. destruct params, encoded; done.
  - by eapply pieces_safe.
Qed.


Lemma map_throwing_Forall2 {A B} (g : A -> Outcome B) l out :
  map_throwing g l = Resolved out -> Forall2 (fun a b => g a = Resolved b) l out.
Proof.
  revert out. induction l as [|a l IH]; intros out Hout; cbn [map_throwing] in Hout.
  - injection Hout as <-. constructor.
  - destruct (g a) as [b|] eqn:Hga; [|done]. cbn [obind] in Hout.
    destruct (map_throwing g l) as [bs|]; [|done]. cbn [obind] in Hout.
    injection Hout as <-. constructor; [done|by apply IH].
Qed.

Lemma decodeURIComponent_undefined :
  decodeURIComponent SUndefined = Resolved (js "undefined").
Proof. reflexivity. Qed.

(** Claim C10, as amended. When [decodeQueryString str] returns a mapping
    [m], a component [comp] of [str] (the pieces between ["&"]) that has no
    ["="], and after which no component has the key [comp], is mapped to
    the nine-character string ["undefined"]; and [decodeQueryString] of the
    empty string is the mapping with the one entry from the empty key to
    ["undefined"]. *)
Theorem decodeQueryString_bare_component str m i comp :
  decodeQueryString str = Resolved m ->
  split 38 str !! i = Some comp ->
  Forall (fun c => c <> 61) comp ->
  (forall j comp', (i < j)%nat -> split 38 str !! j = Some comp' ->
                   component_key comp' <> comp) ->
  m !! comp = Some (js "undefined")
  /\ decodeQueryString [] = Resolved {[ [] := js "undefined" ]}.
Proof.
  intros Hdec Hi Hcomp Hlater. split; [|reflexivity].
  unfold decodeQueryString in Hdec.
  destruct (map_throwing _ _) as [entries|] eqn:Hentries; [|done].
  cbn [obind] in Hdec. injection Hdec as <-.
  apply map_throwing_Forall2 in Hentries.
  assert (Hi' : map (split 61) (split 38 str) !! i = Some [comp]).
  { change map with (@fmap list _). rewrite list_lookup_fmap, Hi. cbn.
    by rewrite split_no_sep. }
  destruct (Forall2_lookup_l _ _ _ _ _ Hentries Hi') as (e & He & Hge).
  cbn [lookup list_lookup slot ToString] in Hge.
  rewrite decodeURIComponent_undefined in Hge. cbn [obind] in Hge.
  injection Hge as <-.
  rewrite <- (take_drop_middle _ _ _ He).
  apply Object_fromEntries_last.
  intros Hin. apply list_elem_of_lookup in Hin as [j Hj].
  rewrite list_lookup_fmap, lookup_drop in Hj.
  destruct (entries !! (S i + j)%nat) as [[k d]|] eqn:Hej; [|done].
  cbn in Hj. injection Hj as ->.
  destruct (Forall2_lookup_r _ _ _ _ _ Hentries Hej) as (kvp & Hkvp & Hg).
  change map with (@fmap list _) in Hkvp. rewrite list_lookup_fmap in Hkvp.
  destruct (split 38 str !! (S i + j)%nat) as [comp'|] eqn:Hc'; [|done].
  cbn in Hkvp. injection Hkvp as <-.
  destruct (decodeURIComponent _) in Hg; [|done]. cbn [obind] in Hg.
  injection Hg as Hkey _.
  by apply (Hlater (S i + j)%nat comp' ltac:(lia) Hc').
Qed.

End CodecFacts.

(** ** The transport *)

Section TransportFacts.
Context {num : JSNumber}.
Variable platform : Platform.

(** *** Timers that come due *)

Lemma fire_log w id : log (fire w id) = log w.
Proof. unfold fire. by destruct (timers w !! id) as [[? []]|]. Qed.

Lemma fire_next_timer w id : next_timer (fire w id) = next_timer w.
Proof. unfold fire. by destruct (timers w !! id) as [[? []]|]. Qed.

Lemma fire_next_controller w id : next_controller (fire w id) = next_controller w.
Proof. unfold fire. by destruct (timers w !! id) as [[? []]|]. Qed.

Lemma fire_timers w id : timers (fire w id) ⊆ timers w.
Proof.
  unfold fire. destruct (timers w !! id) as [[? []]|]; [|done].
  apply delete_subseteq.
Qed.

Lemma fire_aborted w id : aborted w ⊆ aborted (fire w id).
Proof.
  unfold fire. destruct (timers w !! id) as [[? []]|]; [|done].
  cbn. set_solver.
Qed.

Lemma fire_all_log ids : forall w, log (foldl fire w ids) = log w.
Proof.
  induction ids as [|id ids IH]; intros w; [done|].
  cbn [foldl]. by rewrite IH, fire_log.
Qed.

Lemma fire_all_next_timer ids : forall w,
  next_timer (foldl fire w ids) = next_timer w.
Proof.
  induction ids as [|id ids IH]; intros w; [done|].
  cbn [foldl]. by rewrite IH, fire_next_timer.
Qed.

Lemma fire_all_next_controller ids : forall w,
  next_controller (foldl fire w ids) = next_controller w.
Proof.
  induction ids as [|id ids IH]; intros w; [done|].
  cbn [foldl]. by rewrite IH, fire_next_controller.
Qed.

Lemma fire_all_timers ids : forall w, timers (foldl fire w ids) ⊆ timers w.
Proof.
  induction ids as [|id ids IH]; intros w; [done|].
  cbn [foldl]. etrans; [apply IH|apply fire_timers].
Qed.

Lemma fire_all_aborted ids : forall w, aborted w ⊆ aborted (foldl fire w ids).
Proof.
  induction ids as [|id ids IH]; intros w; [done|].
  cbn [foldl]. etrans; [apply fire_aborted|apply IH].
Qed.

(** A pending abort timer that comes due aborts its controller. *)
Lemma fire_all_due ids t ms c : forall w,
  timers w !! t = Some (ms, abort_controller c) ->
  t ∈ ids -> c ∈ aborted (foldl fire w ids).
Proof.
  induction ids as [|id ids IH]; intros w Ht Hin; [by destruct (not_elem_of_nil t)|].
  cbn [foldl]. destruct (decide (id = t)) as [->|Hne].
  - apply fire_all_aborted. unfold fire. rewrite Ht. cbn.
    apply elem_of_union. left. by apply elem_of_singleton.
  - apply elem_of_cons in Hin as [->|Hin]; [done|].
    apply IH; [|done]. unfold fire.
    destruct (timers w !! id) as [[? []]|]; [|done].
    cbn. by rewrite lookup_delete_ne.
Qed.

(** One run of the private [fetch]: how it settles and what it leaves. *)
Lemma fetch_settles request w :
  (fetch platform request w).2 = settled (reply_to platform request w).
Proof.
  unfold fetch, reply_to, sent_init, createTimeoutSignal.
  destruct (timeoutMs request) as [ms|]; cbn.
  - by destruct (settled _).
  - by destruct (settled _).
Qed.

Lemma fetch_log request w :
  log (fetch platform request w).1 = log w ++ transport_events platform request w.
Proof.
  unfold fetch, transport_events, reply_to, sent_init, createTimeoutSignal.
  destruct (timeoutMs request) as [ms|]; cbn.
  - rewrite fire_all_log. cbn. by rewrite <- !app_assoc.
  - by rewrite fire_all_log.
Qed.

Lemma fetch_timer_cleared request w ms :
  timeoutMs request = Some ms ->
  timers (fetch platform request w).1 !! next_timer w = None.
Proof.
  intros Hms. unfold fetch, createTimeoutSignal. rewrite Hms. cbn.
  apply lookup_delete_eq.
Qed.

Lemma fetch_timer_due request w ms :
  timeoutMs request = Some ms ->
  next_timer w ∈ fired (reply_to platform request w) ->
  next_controller w ∈ aborted (fetch platform request w).1.
Proof.
  intros Hms Hdue. unfold fetch, createTimeoutSignal.
  unfold reply_to, sent_init in Hdue. rewrite Hms in *. cbn.
  eapply fire_all_due; [|exact Hdue]. cbn. apply lookup_insert_eq.
Qed.

Lemma fetch_no_timeout request w :
  timeoutMs request = None ->
  next_controller (fetch platform request w).1 = next_controller w
  /\ next_timer (fetch platform request w).1 = next_timer w
  /\ timers (fetch platform request w).1 ⊆ timers w.
Proof.
  intros Hms. unfold fetch, createTimeoutSignal. rewrite Hms. cbn.
  rewrite fire_all_next_controller, fire_all_next_timer.
  repeat split; try done. etrans; [apply fire_all_timers|done].
Qed.


Lemma startsWith_nonempty ct p ps : startsWith ct (p :: ps) = true -> truthy (Some ct) = true.
Proof. by destruct ct. Qed.

(** *** The classification of [fetchAndParse] *)

Lemma fetchAndParse_runs request w :
  fetchAndParse platform request w
  = try_catch
      (fun w1 =>
         match settled (reply_to platform request w) with
         | Resolved response =>
             let contentType := Headers_get (headers response) (js "content-type") in
             (if ok response then
                match contentType with
                | None => ret VNull
                | Some ct =>
                    if startsWith ct (js "application/json") then lift (json response)
                    else throw (JSError Error_
                                  (js "Expected an empty or a JSON response"))
                end
              else if truthy contentType && is_json contentType then
                bind (lift (json response)) (fun payload =>
                  throw (APIError {| err_method := method request;
                                     err_url := url request;
                                     err_statusCode := status response;
                                     err_statusText := statusText response;
                                     err_payload := payload |}))
              else
                throw (JSError Error_
                         (js "Unexpected status code ("
                          ++ Number_toString (status response)
                          ++ js " " ++ statusText response ++ js ")"))) w1
         | Rejected e => (w1, Rejected e)
         end)
      (fetchAndParse_catch request)
      (fetch platform request w).1.
Proof.
  pose proof (fetch_settles request w) as Hs.
  unfold fetchAndParse, try_catch, fetchAndParse_try, bind.
  destruct (fetch platform request w) as [w1 o]. cbn in Hs. subst o.
  by destruct (settled (reply_to platform request w)).
Qed.

(** When the underlying call resolves with a response whose [ok] is
    true and whose [content-type] starts with ["application/json"],
    [fetchAndParse] resolves with the parsed body; if parsing fails, it
    rejects with the transport error that carries the parser's message. *)
Lemma fetchAndParse_json_success request w response ct :
  settled (reply_to platform request w) = Resolved response ->
  ok response = true ->
  Headers_get (headers response) (js "content-type") = Some ct ->
  startsWith ct (js "application/json") = true ->
  (fetchAndParse platform request w).2
  = match json response with
    | Resolved v => Resolved v
    | Rejected (APIError e) => Rejected (APIError e)
    | Rejected (JSError _ msg) => Rejected (request_failed request msg)
    end.
Proof.
  intros Hr Hok Hct Hjson. rewrite fetchAndParse_runs.
  unfold try_catch. rewrite Hr, Hok, Hct, Hjson. unfold lift.
  by destruct (json response) as [v|[cls msg|e]].
Qed.

(** A response whose [ok] is true and whose [content-type] is present
    but does not start with ["application/json"] makes [fetchAndParse]
    reject with the transport error
    ["Expected an empty or a JSON response"]. *)
Lemma fetchAndParse_unexpected_content_type request w response ct :
  settled (reply_to platform request w) = Resolved response ->
  ok response = true ->
  Headers_get (headers response) (js "content-type") = Some ct ->
  startsWith ct (js "application/json") = false ->
  (fetchAndParse platform request w).2
  = Rejected (request_failed request (js "Expected an empty or a JSON response")).
Proof.
  intros Hr Hok Hct Hjson. rewrite fetchAndParse_runs.
  unfold try_catch. by rewrite Hr, Hok, Hct, Hjson.
Qed.

(** A response whose [ok] is false and whose [content-type] is absent,
    empty or not JSON makes [fetchAndParse] reject with the transport error
    that names the status code and the status text; the body is not
    read. *)
Lemma fetchAndParse_unexpected_status request w response :
  settled (reply_to platform request w) = Resolved response ->
  ok response = false ->
  is_json (Headers_get (headers response) (js "content-type")) = false ->
  (fetchAndParse platform request w).2
  = Rejected (request_failed request
                (js "Unexpected status code (" ++ Number_toString (status response)
                 ++ js " " ++ statusText response ++ js ")")).
Proof.
  intros Hr Hok Hjson. rewrite fetchAndParse_runs.
  unfold try_catch. rewrite Hr, Hok, Hjson. by rewrite andb_false_r.
Qed.

(** Claim C6. When the underlying call resolves with a response whose
    [ok] is true and that has no [content-type] header, [fetchAndParse]
    resolves to [null]. *)
Theorem fetchAndParse_empty_success request w response :
  settled (reply_to platform request w) = Resolved response ->
  ok response = true ->
  Headers_get (headers response) (js "content-type") = None ->
  (fetchAndParse platform request w).2 = Resolved VNull.
Proof.
  intros Hr Hok Hct. pose proof (fetch_settles request w) as Hs.
  unfold fetchAndParse, try_catch, fetchAndParse_try, bind.
  destruct (fetch platform request w) as [w1 o]. cbn in Hs. subst o.
  rewrite Hr, Hok, Hct. reflexivity.
Qed.

(** Claim C3. When the underlying call resolves with a response whose
    [ok] is false and whose [content-type] starts with
    ["application/json"], [fetchAndParse] rejects with the
    [MongoDBRealmError] that carries the method and URL of the request and
    the status code, the status text and the parsed JSON body of the
    response. *)
Theorem fetchAndParse_api_error request w response ct payload :
  settled (reply_to platform request w) = Resolved response ->
  ok response = false ->
  Headers_get (headers response) (js "content-type") = Some ct ->
  startsWith ct (js "application/json") = true ->
  json response = Resolved payload ->
  (fetchAndParse platform request w).2
  = Rejected (APIError {| err_method := method request;
                          err_url := url request;
                          err_statusCode := status response;
                          err_statusText := statusText response;
                          err_payload := payload |}).
Proof.
  intros Hr Hok Hct Hjson Hp. pose proof (fetch_settles request w) as Hs.
  unfold fetchAndParse, try_catch, fetchAndParse_try, bind.
  destruct (fetch platform request w) as [w1 o]. cbn in Hs. subst o.
  rewrite Hr, Hok, Hct. cbn [is_json]. rewrite Hjson.
  rewrite (startsWith_nonempty _ _ _ Hjson). cbn [andb].
  unfold lift. rewrite Hp. reflexivity.
Qed.

(** Claim C4. Whatever the [try] block of [fetchAndParse] throws, a
    [MongoDBRealmError] leaves [fetchAndParse] as it is and any other error
    leaves as an [Error] whose message is
    ["Request failed (<method> <url>): "] followed by the message of the
    error that was thrown; this holds in particular of what the underlying
    call rejects with and of what reading the JSON body rejects with. *)
Theorem fetchAndParse_rethrow request w :
  fetchAndParse platform request w
  = (let (w', o) := fetchAndParse_try platform request w in
     (w', match o with
          | Resolved v => Resolved v
          | Rejected (APIError e) => Rejected (APIError e)
          | Rejected (JSError _ msg) => Rejected (request_failed request msg)
          end))
  /\ match settled (reply_to platform request w) with
     | Rejected (APIError e) =>
         (fetchAndParse platform request w).2 = Rejected (APIError e)
     | Rejected (JSError _ msg) =>
         (fetchAndParse platform request w).2 = Rejected (request_failed request msg)
     | Resolved response =>
         match json response with
         | Rejected (JSError _ msg) =>
             is_json (Headers_get (headers response) (js "content-type")) = false
             \/ (fetchAndParse platform request w).2
                = Rejected (request_failed request msg)
         | _ => True
         end
     end.
Proof.
  split.
  - unfold fetchAndParse, try_catch.
    destruct (fetchAndParse_try platform request w) as [w' [v|[cls msg|e]]]; done.
  - pose proof (fetch_settles request w) as Hs.
    unfold fetchAndParse, try_catch, fetchAndParse_try, bind.
    destruct (fetch platform request w) as [w1 o]. cbn in Hs. subst o.
    destruct (settled (reply_to platform request w)) as [response|[cls msg|e]]; [|done..].
    destruct (json response) as [v|[cls msg|e]] eqn:Hjson; [done| |done].
    destruct (Headers_get (headers response) (js "content-type")) as [ct|];
      [|by left].
    cbn [is_json].
    destruct (startsWith ct (js "application/json")) eqn:Hct; [right|by left].
    rewrite (startsWith_nonempty _ _ _ Hct). cbn [andb].
    unfold lift. by destruct (ok response).
Qed.

(** Claim C5. With a [timeoutMs], [fetchAndParse] makes one abort
    controller, schedules its [abort] with delay [timeoutMs], hands its
    signal to the underlying call and clears the timer after the call,
    however the call and the classification end: the timer is not pending
    afterwards, and if it came due while the call was in flight the
    controller is aborted. Without a [timeoutMs] no controller and no timer
    is made and no signal is attached. *)
Theorem timeout_signal_released request w :
  let w' := (fetchAndParse platform request w).1 in
  match timeoutMs request with
  | Some ms =>
      log w' = log w ++
        [EvNewAbortController (next_controller w);
         EvSetTimeout (next_timer w) ms (abort_controller (next_controller w));
         EvFetch (url request) (sent_init platform request w);
         EvClearTimeout (next_timer w)]
      /\ init_signal (sent_init platform request w) = Some (next_controller w)
      /\ timers w' !! next_timer w = None
      /\ (next_timer w ∉ fired (reply_to platform request w)
          \/ next_controller w ∈ aborted w')
  | None =>
      log w' = log w ++ [EvFetch (url request) (sent_init platform request w)]
      /\ init_signal (sent_init platform request w) = None
      /\ next_controller w' = next_controller w
      /\ next_timer w' = next_timer w
      /\ timers w' ⊆ timers w
  end.
Proof.
  assert (Hw : (fetchAndParse platform request w).1 = (fetch platform request w).1).
  { unfold fetchAndParse, try_catch, fetchAndParse_try, bind, fetchAndParse_catch,
      lift, throw, ret.
    destruct (fetch platform request w) as [w1 [response|e]]; cbn [fst];
      repeat case_match; simplify_eq; done. }
  cbn zeta. rewrite Hw. pose proof (fetch_log request w) as Hlog.
  unfold transport_events in Hlog.
  destruct (timeoutMs request) as [ms|] eqn:Hms.
  - split; [done|]. split; [unfold sent_init; by rewrite Hms|].
    split; [by eapply fetch_timer_cleared|].
    destruct (decide (next_timer w ∈ fired (reply_to platform request w))) as [Hdue|Hnot];
      [right; by eapply fetch_timer_due|by left].
  - split; [done|]. split; [unfold sent_init; by rewrite Hms|].
    by apply fetch_no_timeout.
Qed.

(** Claim C7, as amended. [fetchWithCallbacks] calls
    [handler.onSuccess] once, with the status code, the flattened headers
    and the unparsed body text, whenever the underlying call resolves and
    the body text can be read, whatever the status code; it calls
    [handler.onError] once with the error when the underlying call rejects
    or reading the body rejects, and not at all when [handler.onSuccess]
    was called and returned. (What [handler.onSuccess] throws also
    reaches [handler.onError].) *)
Theorem fetchWithCallbacks_calls request handler w :
  log (fetchWithCallbacks platform request handler w).1
  = log w ++ transport_events platform request w ++
    match settled (reply_to platform request w) with
    | Rejected e => [EvOnError e]
    | Resolved response =>
        match text response with
        | Rejected e => [EvOnError e]
        | Resolved decodedBody =>
            EvOnSuccess (raw_response response decodedBody) ::
            match onSuccess handler (raw_response response decodedBody) with
            | Resolved _ => []
            | Rejected e => [EvOnError e]
            end
        end
    end.
Proof.
  pose proof (fetch_settles request w) as Hs.
  pose proof (fetch_log request w) as Hlog.
  unfold fetchWithCallbacks, try_catch, bind, call_onSuccess, call_onError, lift, ret.
  destruct (fetch platform request w) as [w1 o]. cbn in Hs, Hlog. subst o.
  destruct (settled (reply_to platform request w)) as [response|e].
  - destruct (text response) as [decodedBody|e].
    + fold (raw_response response decodedBody).
      destruct (onSuccess handler _) as [[]|e]; cbn; rewrite Hlog.
      * by rewrite <- !app_assoc.
      * by rewrite <- !app_assoc.
    + cbn. rewrite Hlog. by rewrite <- !app_assoc.
  - cbn. rewrite Hlog. by rewrite <- !app_assoc.
Qed.

End TransportFacts.

(** ** The authenticator *)

Section AuthFacts.
Context {num : JSNumber} {ext : AuthExternals}.

Lemma typeof_string v : typeof v = js "string" <-> exists s, v = VStr s.
Proof.
  split; [|by intros [s ->]].
  destruct v; try discriminate. by eexists.
Qed.

Lemma is_oauth2_redirect_spec credentials :
  is_oauth2_redirect credentials = true <-> oauth2_with_redirect credentials.
Proof.
  unfold is_oauth2_redirect, oauth2_with_redirect.
  by rewrite andb_true_iff, bool_decide_eq_true, typeof_string.
Qed.

Lemma login_request_resolves loginUrl credentials linkWithUser :
  login_request loginUrl credentials linkWithUser
  = Resolved {| fr_method := js "POST";
                fr_url := loginUrl ++ match linkWithUser with
                                      | Some _ => js "?link=true"
                                      | None => []
                                      end;
                fr_body := VObj (payload credentials);
                fr_tokenType := match linkWithUser with
                                | Some _ => js "access"
                                | None => js "none"
                                end;
                fr_user := linkWithUser |}.
Proof.
  unfold login_request. destruct linkWithUser as [u|].
  - reflexivity.
  - cbn. by rewrite app_nil_r.
Qed.

Lemma authenticate_direct this credentials linkWithUser appUrl :
  is_oauth2_redirect credentials = false ->
  getAppUrl this = Resolved appUrl ->
  authenticate this credentials linkWithUser []
  = ([CallGetAppUrl; CallFetchJSON (direct_request appUrl credentials linkWithUser)],
     obind (fetchJSON this (direct_request appUrl credentials linkWithUser))
           read_login_response).
Proof.
  intros Hb Happ. unfold authenticate. rewrite Hb.
  unfold bind, call, lift. rewrite Happ. cbn [app].
  rewrite login_request_resolves. fold (direct_request appUrl credentials linkWithUser).
  by destruct (fetchJSON this _).
Qed.

(** Claim C1. Either the provider type starts with ["oauth2"] and the
    payload has a string [redirectUrl], and then [authenticate] calls
    [oauth2.initiate] with the credentials and nothing else (no
    [fetchJSON]), its result being the decoded result of the flow; or not,
    and then [authenticate] never calls [oauth2.initiate]: it asks for the
    application URL and, once it has it, posts the direct login request. *)
Theorem authenticate_branch this credentials linkWithUser :
  let run := authenticate this credentials linkWithUser [] in
  (oauth2_with_redirect credentials
   /\ run.1 = [CallOAuth2Initiate credentials]
   /\ (forall request, CallFetchJSON request ∉ run.1)
   /\ run.2 = obind (oauth2_initiate this credentials) decodeAuthInfo)
  \/ (~ oauth2_with_redirect credentials
      /\ (CallOAuth2Initiate credentials ∉ run.1)
      /\ match getAppUrl this with
         | Resolved appUrl =>
             run.1 = [CallGetAppUrl;
                      CallFetchJSON (direct_request appUrl credentials linkWithUser)]
             /\ run.2 = obind (fetchJSON this
                                 (direct_request appUrl credentials linkWithUser))
                              read_login_response
         | Rejected e => run = ([CallGetAppUrl], Rejected e)
         end).
Proof.
  cbn zeta. destruct (is_oauth2_redirect credentials) eqn:Hb.
  - left. split; [by apply is_oauth2_redirect_spec|].
    unfold authenticate. rewrite Hb. unfold bind, call, lift. cbn [app].
    destruct (oauth2_initiate this credentials); cbn [fst snd obind];
      (split; [done|]); (split; [|done]);
      intros request Hin; apply list_elem_of_singleton in Hin; discriminate.
  - right. split.
    { rewrite <- is_oauth2_redirect_spec. by rewrite Hb. }
    destruct (getAppUrl this) as [appUrl|e] eqn:Happ.
    + rewrite (authenticate_direct _ _ _ appUrl) by done. cbn [fst snd].
      split; [|done]. intros Hin.
      apply elem_of_cons in Hin as [?|Hin]; [discriminate|].
      apply list_elem_of_singleton in Hin. discriminate.
    + unfold authenticate. rewrite Hb. unfold bind, call. rewrite Happ.
      cbn [app fst]. split; [|done]. intros Hin.
      apply list_elem_of_singleton in Hin. discriminate.
Qed.

(** Claim C8. On the direct path, once the application URL is known,
    the request handed to [fetchJSON] is a POST whose URL is the login URL
    of the provider followed by ["?link=true"] when [linkWithUser] is
    given and the login URL unchanged when it is not, and whose
    [tokenType] is ["access"] when [linkWithUser] is given and ["none"]
    when it is not. *)
Theorem login_link_parameter this credentials linkWithUser appUrl :
  is_oauth2_redirect credentials = false ->
  getAppUrl this = Resolved appUrl ->
  exists request,
    (authenticate this credentials linkWithUser []).1
    = [CallGetAppUrl; CallFetchJSON request]
    /\ fr_method request = js "POST"
    /\ fr_url request
       = match linkWithUser with
         | Some _ => login_url appUrl (providerName credentials) ++ js "?link=true"
         | None => login_url appUrl (providerName credentials)
         end
    /\ fr_tokenType request
       = match linkWithUser with
         | Some _ => js "access"
         | None => js "none"
         end.
Proof.
  intros Hb Happ. exists (direct_request appUrl credentials linkWithUser).
  rewrite (authenticate_direct _ _ _ appUrl) by done.
  repeat split. destruct linkWithUser; [done|]. cbn. by rewrite app_nil_r.
Qed.

(** Claim C2, as amended. On the direct path, when the login request
    resolves with [response]: if [user_id] and [access_token] of the
    response are strings, [authenticate] resolves with them as [userId]
    and [accessToken] (empty or not) and with the [refresh_token] of the
    response as [refreshToken] (whatever its type), [null] standing in
    when there is none; if
    [user_id] is a string and [access_token] is not, it rejects with
    ["Expected an access token in the response"]; if [user_id] is not a
    string, it rejects with ["Expected a user id in the response"], or with
    the [TypeError] of the destructuring when the response is [null] or
    [undefined]. *)
Theorem login_response_validated this credentials linkWithUser appUrl response :
  is_oauth2_redirect credentials = false ->
  getAppUrl this = Resolved appUrl ->
  fetchJSON this (direct_request appUrl credentials linkWithUser) = Resolved response ->
  let outcome := (authenticate this credentials linkWithUser []).2 in
  match get_property response (js "user_id"),
        get_property response (js "access_token") with
  | VStr user_id, VStr access_token =>
      outcome = Resolved {| userId := user_id;
                            accessToken := access_token;
                            refreshToken :=
                              match get_property response (js "refresh_token") with
                              | VUndefined => VNull
                              | refresh_token => refresh_token
                              end |}
  | VStr _, _ =>
      outcome = Rejected (JSError Error_ (js "Expected an access token in the response"))
  | _, _ =>
      if nullish response then exists msg, outcome = Rejected (JSError TypeError_ msg)
      else outcome = Rejected (JSError Error_ (js "Expected a user id in the response"))
  end.
Proof.
  intros Hb Happ Hresp. cbn zeta.
  rewrite (authenticate_direct _ _ _ appUrl) by done. rewrite Hresp. cbn [snd obind].
  unfold read_login_response.
  destruct response as [| |b|n|s|items|props];
    try (cbn [get_property nullish]; by eauto).
  cbv iota. cbn [nullish].
  destruct (get_property (VObj props) (js "user_id")); try done.
  destruct (get_property (VObj props) (js "access_token")); done.
Qed.

End AuthFacts.


(** ** Runs on concrete inputs *)

Example encodeUrl_link_true :
  encodeUrl (js "https://x/login") [(js "link", SBool true)]
  = Resolved (js "https://x/login?link=true").
Proof. reflexivity. Qed.

Example encodeUrl_link_undefined :
  encodeUrl (js "https://x/login") [(js "link", SUndefined)]
  = Resolved (js "https://x/login").
Proof. reflexivity. Qed.

Example encodeQueryString_utf8 :
  encodeQueryString
    [(js "a", SStr [233; 0xD83D; 0xDE00; 32; 0x20AC]); (js "n", SNum (-1205)%Z)]
  = Resolved (js "a=%C3%A9%F0%9F%98%80%20%E2%82%AC&n=-1205").
Proof. vm_compute. reflexivity. Qed.

Example decodeQueryString_utf8 :
  decodeQueryString (js "a=%C3%A9%F0%9F%98%80%20%e2%82%aC&n=-1205")
  = Resolved (Object_fromEntries
                [(js "a", [233; 0xD83D; 0xDE00; 32; 0x20AC]); (js "n", js "-1205")]).
Proof. vm_compute. reflexivity. Qed.

Example fetchAndParse_scenario_200 :
  (fetchAndParse (answering {| fired := []; settled := Resolved response_200 |})
     get_y idle).2
  = Resolved (VObj [(js "a", VNum 1%Z)]).
Proof. reflexivity. Qed.

(** A call that is aborted by its timer: the timer is gone, the controller
    is aborted and the caller sees a transport error. *)
Example fetchAndParse_timed_out :
  let aborting :=
    answering {| fired := [0];
                 settled := Rejected (JSError AbortError_ (js "Aborted")) |} in
  let run := fetchAndParse aborting get_y_timeout idle in
  timers run.1 = ∅
  /\ aborted run.1 = {[0]}
  /\ run.2 = Rejected (JSError Error_ (js "Request failed (GET https://x/y): Aborted")).
Proof. vm_compute. done. Qed.

Example authenticate_oauth2 :
  (authenticate (logging_in VNull) oauth2_google None []).1
  = [CallOAuth2Initiate oauth2_google].
Proof. reflexivity. Qed.

(** ** The claims on concrete inputs *)

Lemma query_round_trip_witness :
  exists q,
    encodeQueryString [(js "link", SBool true); (js "n", SNum 42%Z); (js "q", SStr (js "a b&c"))]
    = Resolved q /\
    decodeQueryString q
    = Resolved (list_to_map [(js "link", js "true"); (js "n", js "42"); (js "q", js "a b&c")]).
Proof.
  apply (query_round_trip (num := Z_JSNumber)
           [(js "link", SBool true); (js "n", SNum (num := Z_JSNumber) 42%Z);
            (js "q", SStr (js "a b&c"))]).
  - discriminate.
  - apply (bool_decide_unpack _). vm_compute. reflexivity.
  - repeat constructor; vm_compute; intros; discriminate.
Defined.

(** The round trip fails on the empty mapping, on a key with ["="], and on
    a value with an unpaired surrogate. *)
Lemma query_round_trip_fails :
  (exists m, obind (encodeQueryString []) decodeQueryString = Resolved m
             /\ m <> list_to_map (coerced []))
  /\ (exists m, obind (encodeQueryString [(js "a=b", SStr (js "c"))]) decodeQueryString
                = Resolved m
                /\ m <> list_to_map (coerced [(js "a=b", SStr (js "c"))]))
  /\ obind (encodeQueryString [(js "a", SStr [0xD800])]) decodeQueryString
     = Rejected URIError_malformed.
Proof.
  split; [|split].
  - exists {[ [] := js "undefined" ]}. split; [reflexivity|].
    intros Heq. apply (f_equal (fun m : gmap jsstring jsstring => m !! [])) in Heq.
    vm_compute in Heq. discriminate.
  - exists {[ js "a" := js "b" ]}. split; [vm_compute; reflexivity|].
    intros Heq. apply (f_equal (fun m : gmap jsstring jsstring => m !! js "a")) in Heq.
    vm_compute in Heq. discriminate.
  - reflexivity.
Qed.

Lemma decodeQueryString_bare_component_witness :
  ({[ [] := js "undefined" ]} : gmap jsstring jsstring) !! [] = Some (js "undefined")
  /\ decodeQueryString [] = Resolved {[ [] := js "undefined" ]}.
Proof.
  apply (decodeQueryString_bare_component (num := Z_JSNumber) [] _ 0%nat []).
  - reflexivity.
  - reflexivity.
  - constructor.
  - intros [|j] comp' Hj; [lia|]. discriminate.
Defined.

(** ["undefined"] has nine characters; in ["a&a=1"] the component ["a"]
    has no ["="] and the result maps ["a"] to ["1"]; on ["a&b=%"] the
    function throws. *)
Lemma decodeQueryString_shadowed_component :
  length (js "undefined") = 9%nat
  /\ split 38 (js "a&a=1") !! 0%nat = Some (js "a")
  /\ Forall (fun c => c <> 61) (js "a")
  /\ decodeQueryString (js "a&a=1") = Resolved {[ js "a" := js "1" ]}
  /\ ({[ js "a" := js "1" ]} : gmap jsstring jsstring) !! js "a" <> Some (js "undefined")
  /\ decodeQueryString (js "a&b=%") = Rejected URIError_malformed.
Proof.
  split; [reflexivity|]. split; [reflexivity|].
  split; [repeat constructor; discriminate|].
  split; [vm_compute; reflexivity|]. split; [vm_compute; discriminate|].
  reflexivity.
Qed.

Lemma fetchAndParse_api_error_witness :
  (fetchAndParse (answering {| fired := []; settled := Resolved response_401 |})
     get_y idle).2
  = Rejected (APIError {| err_method := js "GET";
                          err_url := js "https://x/y";
                          err_statusCode := 401%Z;
                          err_statusText := js "Unauthorized";
                          err_payload :=
                            VObj [(js "error", VStr (js "invalid session"))] |}).
Proof.
  apply (fetchAndParse_api_error
           (answering {| fired := []; settled := Resolved response_401 |})
           get_y idle response_401 (js "application/json; charset=utf-8"));
    reflexivity.
Defined.

Lemma fetchAndParse_empty_success_witness :
  (fetchAndParse (answering {| fired := []; settled := Resolved response_204 |})
     get_y_timeout idle).2
  = Resolved VNull.
Proof.
  apply (fetchAndParse_empty_success
           (answering {| fired := []; settled := Resolved response_204 |})
           get_y_timeout idle response_204);
    reflexivity.
Defined.

(** The call resolves with a 200 and its body is read, [onSuccess] throws,
    and [onError] is called with what it threw. *)
Lemma fetchWithCallbacks_onError_after_success :
  let platform := answering {| fired := []; settled := Resolved response_200 |} in
  settled (reply_to platform get_y idle) = Resolved response_200
  /\ exists decodedBody,
       text response_200 = Resolved decodedBody
       /\ log (fetchWithCallbacks platform get_y throwing_handler idle).1
          = [EvFetch (js "https://x/y") (sent_init platform get_y idle);
             EvOnSuccess (raw_response response_200 decodedBody);
             EvOnError boom].
Proof.
  cbn zeta. split; [reflexivity|]. eexists. split; reflexivity.
Qed.

Lemma login_link_parameter_witness :
  exists request,
    (authenticate (logging_in VNull) local_userpass (Some (js "user-1")) []).1
    = [CallGetAppUrl; CallFetchJSON request]
    /\ fr_method request = js "POST"
    /\ fr_url request
       = js "https://x/app/auth/providers/local-userpass/login?link=true"
    /\ fr_tokenType request = js "access".
Proof.
  apply (login_link_parameter (logging_in VNull) local_userpass
           (Some (js "user-1")) (js "https://x/app"));
    reflexivity.
Defined.

Lemma login_response_validated_witness :
  (authenticate
     (logging_in (VObj [(js "user_id", VStr (js "u1"));
                        (js "access_token", VStr (js "tok"))]))
     local_userpass None []).2
  = Resolved {| userId := js "u1"; accessToken := js "tok"; refreshToken := VNull |}.
Proof.
  apply (login_response_validated
           (logging_in (VObj [(js "user_id", VStr (js "u1"));
                              (js "access_token", VStr (js "tok"))]))
           local_userpass None (js "https://x/app")
           (VObj [(js "user_id", VStr (js "u1"));
                  (js "access_token", VStr (js "tok"))]));
    reflexivity.
Defined.

(** A login response with an empty [user_id], an empty [access_token] and
    a number for [refresh_token] is returned as it is. *)
Lemma login_response_unchecked :
  exists r : @AuthResponse Z_JSNumber,
    (authenticate
       (logging_in (VObj [(js "user_id", VStr []);
                          (js "access_token", VStr []);
                          (js "refresh_token", VNum 7%Z)]))
       local_userpass None []).2
    = Resolved r
    /\ userId r = [] /\ accessToken r = [] /\ refreshToken r = VNum 7%Z.
Proof. eexists. split; [reflexivity|]. repeat split. Qed.

(** * Further properties of the code *)

(** ** [generateRandomString] *)

Section RandomFacts.
Context {num : JSNumber}.
Variable draw : nat -> N -> N.

Lemma generateRandomString_loop_app i turns alphabet result :
  generateRandomString_loop draw i turns alphabet result
  = result ++ generateRandomString_loop draw i turns alphabet [].
Proof.
  revert i result. induction turns as [|turns IH]; intros i result; cbn [generateRandomString_loop].
  - by rewrite app_nil_r.
  - rewrite IH. rewrite (IH _ ([] ++ _)). cbn [app]. by rewrite app_assoc.
Qed.

(** When the alphabet is not empty and every draw is an index into it,
    [generateRandomString] returns a string of exactly [length] code units,
    each of them a code unit of the alphabet. *)
Theorem generateRandomString_picks length alphabet :
  alphabet <> [] ->
  (forall i, draw i (N.of_nat (List.length alphabet)) < N.of_nat (List.length alphabet)) ->
  List.length (generateRandomString draw length alphabet) = length
  /\ Forall (fun c => c ∈ alphabet) (generateRandomString draw length alphabet).
Proof.
  intros Hne Hdraw. unfold generateRandomString. generalize 0%nat as i.
  induction length as [|length IH]; intros i; cbn [generateRandomString_loop].
  - by split.
  - rewrite generateRandomString_loop_app. cbn [app].
    destruct (lookup_lt_is_Some_2 alphabet (N.to_nat (draw i (N.of_nat (List.length alphabet)))))
      as [c Hc].
    { specialize (Hdraw i). lia. }
    rewrite Hc. cbn [fmap option_fmap option_map slot ToString app].
    destruct (IH (S i)) as [Hlen Hall]. split.
    + cbn [List.length]. by rewrite Hlen.
    + constructor; [|done]. by eapply list_elem_of_lookup_2.
Qed.

(** With the empty alphabet every [alphabet[index]] is [undefined], so
    [generateRandomString] returns ["undefined"] written [length] times,
    whatever is drawn. *)
Theorem generateRandomString_empty_alphabet length :
  generateRandomString draw length []
  = concat (replicate length (js "undefined")).
Proof.
  unfold generateRandomString. generalize 0%nat as i.
  induction length as [|length IH]; intros i; [done|].
  cbn [generateRandomString_loop replicate concat].
  rewrite generateRandomString_loop_app. rewrite IH.
  by rewrite lookup_nil.
Qed.

End RandomFacts.

(** ** More of the codec *)

Section CodecMore.
Context {num : JSNumber}.

(** *** [encodeQueryString] and [encodeUrl] *)

(** An entry whose value is [undefined] leaves no trace in the query
    string, wherever it stands among the entries. *)
Theorem encodeQueryString_skips_undefined before after k :
  encodeQueryString (before ++ (k, SUndefined) :: after)
  = encodeQueryString (before ++ after).
Proof.
  unfold encodeQueryString. rewrite !filter_app.
  by rewrite filter_cons_False by (cbn; congruence).
Qed.

Lemma Encode_rejects n : forall s,
  (length s <= n)%nat -> Forall (fun c => c < 0x10000) s ->
  well_formed s = false -> Encode s = Rejected URIError_malformed.
Proof.
  induction n as [|n IH]; intros s Hlen Hcu Hwf.
  { by destruct s; [|cbn in Hlen; lia]. }
  destruct s as [|c r]; [done|].
  cbn [Encode]. cbn [well_formed length] in Hwf, Hlen.
  apply Forall_cons in Hcu as [Hc Hcu].
  destruct (uriUnescaped c) eqn:Hun.
  { destruct (uriUnescaped_plain c Hun) as (_ & _ & _ & H128).
    unfold is_lead, is_trail in Hwf.
    rewrite (proj2 (in_range_false 0xD800 0xDBFF c)) in Hwf by lia.
    rewrite (proj2 (in_range_false 0xDC00 0xDFFF c)) in Hwf by lia.
    rewrite (proj2 (N.ltb_lt c 0x10000)) in Hwf by lia.
    by rewrite (IH r) by (done || lia). }
  destruct (is_lead c).
  { destruct r as [|c2 r2]; [done|]. apply Forall_cons in Hcu as [_ Hcu].
    destruct (is_trail c2); [|done]. cbn [length] in Hlen.
    by rewrite (IH r2) by (done || lia). }
  destruct (is_trail c); [done|].
  rewrite (proj2 (N.ltb_lt c 0x10000)) in Hwf by lia.
  by rewrite (IH r) by (done || lia).
Qed.

Lemma encodeURIComponent_outcome v :
  code_units v ->
  if encodable v then exists e, encodeURIComponent v = Resolved e
  else encodeURIComponent v = Rejected URIError_malformed.
Proof.
  intros Hcu. destruct (encodable v) eqn:Henc.
  - destruct (encodeURIComponent_roundtrip v) as (e & He & _); [|by exists e].
    apply ToString_well_formed. by destruct v.
  - destruct v as [| |n|s]; try done.
    by apply (Encode_rejects (length s)).
Qed.

(** [encodeQueryString] returns a string when no string value has an
    unpaired surrogate, and throws a [URIError] when one has. *)
Theorem encodeQueryString_throws params :
  Forall (fun kv : jsstring * Scalar => code_units kv.2) params ->
  if forallb (fun kv : jsstring * Scalar => encodable kv.2) params
  then exists q, encodeQueryString params = Resolved q
  else encodeQueryString params = Rejected URIError_malformed.
Proof.
  intros Hcu. unfold encodeQueryString.
  induction Hcu as [|[k v] params Hv _ IH]; [by eexists|].
  cbn [forallb snd]. destruct (decide (is_undefined v = false)) as [Hdef|Hundef].
  - rewrite filter_cons_True by done. cbn [map_throwing fst snd].
    pose proof (encodeURIComponent_outcome v Hv) as Hout.
    destruct (encodable v); cbn [andb].
    + destruct Hout as [e ->]. cbn [obind].
      destruct (forallb _ params).
      * destruct IH as [q Hq].
        destruct (map_throwing _ _); [by eexists|done].
      * by destruct (map_throwing _ _).
    + by rewrite Hout.
  - rewrite filter_cons_False by done. by destruct v.
Qed.

Lemma join_nonempty sep p pieces : p <> [] -> join sep (p :: pieces) <> [].
Proof. destruct pieces; cbn [join]; destruct p; done. Qed.

Lemma map_throwing_length {A B} (f : A -> Outcome B) l out :
  map_throwing f l = Resolved out -> length out = length l.
Proof.
  revert out. induction l as [|a l IH]; intros out; cbn [map_throwing].
  - by intros [= <-].
  - destruct (f a); [|done]. cbn [obind].
    destruct (map_throwing f l) as [bs|]; [|done]. cbn [obind].
    intros [= <-]. cbn. by rewrite (IH bs).
Qed.

(** When [encodeUrl] returns, it returns the URL itself if every value
    is [undefined] (or there is none), and otherwise the URL, a ["?"] and
    the query string, which is then not empty. *)
Theorem encodeUrl_unchanged url params r :
  encodeUrl url params = Resolved r ->
  if forallb (fun kv : jsstring * Scalar => is_undefined kv.2) params
  then r = url
  else exists q, q <> [] /\ encodeQueryString params = Resolved q
                 /\ r = url ++ js "?" ++ q.
Proof.
  unfold encodeUrl, encodeQueryString.
  destruct (map_throwing _ _) as [encoded|] eqn:Henc; [|done]. cbn [obind].
  apply map_throwing_length in Henc.
  destruct (forallb _ params) eqn:Hall.
  - assert (filter (fun kv : jsstring * Scalar => is_undefined kv.2 = false) params = [])
      as Hnil.
    { clear Henc. induction params as [|[k v] params IH]; [done|].
      cbn [forallb snd] in Hall. apply andb_true_iff in Hall as [Hv Hall].
      rewrite filter_cons_False by (cbn; congruence). by apply IH. }
    rewrite Hnil in Henc. destruct encoded; [|done]. by intros [= <-].
  - assert (filter (fun kv : jsstring * Scalar => is_undefined kv.2 = false) params <> [])
      as Hne.
    { clear Henc. induction params as [|[k v] params IH]; [done|].
      cbn [forallb snd] in Hall. destruct (is_undefined v) eqn:Hv; cbn [andb] in Hall.
      - rewrite filter_cons_False by (cbn; congruence). by apply IH.
      - by rewrite filter_cons_True. }
    destruct encoded as [|[k e] encoded];
      [by destruct (filter _ params)|].
    cbn [map fst snd].
    pose proof (join_nonempty (js "&") (k ++ js "=" ++ e)
                  (map (fun kv : jsstring * jsstring => kv.1 ++ js "=" ++ kv.2) encoded)
                  ltac:(by destruct k)) as Hq.
    destruct (join _ _) as [|c q] eqn:Hj; [done|]. cbn [length Nat.ltb Nat.leb].
    intros [= <-]. by eexists.
Qed.

(** *** [decodeQueryString] *)

Lemma Decode_error f : forall s e, Decode f s = Rejected e -> e = URIError_malformed.
Proof.
  induction f as [|f IH]; intros s e; cbn [Decode]; [by intros [= <-]|].
  destruct s as [|c r]; [done|].
  destruct (c =? 37).
  - destruct (read_escape _) as [[b r1]|]; [|by intros [= <-]].
    destruct (b <? 128).
    { destruct (Decode f r1) eqn:Hd; [done|]. cbn [obind]. intros [= <-]. by eapply IH. }
    destruct (utf8_length b); [|by intros [= <-]].
    destruct (read_continuations _ _) as [[bs r2]|]; [|by intros [= <-]].
    destruct (utf8_code_point b bs); [|by intros [= <-]].
    destruct (Decode f r2) eqn:Hd; [done|]. cbn [obind]. intros [= <-]. by eapply IH.
  - destruct (Decode f r) eqn:Hd; [done|]. cbn [obind]. intros [= <-]. by eapply IH.
Qed.

Lemma map_throwing_rejects {A B} (g : A -> Outcome B) l e :
  map_throwing g l = Rejected e -> Exists (fun a => g a = Rejected e) l.
Proof.
  induction l as [|a l IH]; cbn [map_throwing]; [done|].
  destruct (g a) eqn:Hga; cbn [obind].
  - destruct (map_throwing g l); [done|]. cbn [obind]. intros [= <-].
    apply Exists_cons_tl. by apply IH.
  - intros [= <-]. by apply Exists_cons_hd.
Qed.

(** [decodeQueryString] either returns a mapping, and then every
    component's value decodes, or throws a [URIError], and then the value of
    some component is a malformed percent-encoding; it ends in no other
    way. *)
Theorem decodeQueryString_throws str :
  (exists m, decodeQueryString str = Resolved m)
  /\ Forall (fun comp => exists d, decodeURIComponent (component_value comp) = Resolved d)
            (split 38 str)
  \/ decodeQueryString str = Rejected URIError_malformed
     /\ Exists (fun comp => decodeURIComponent (component_value comp)
                            = Rejected URIError_malformed)
               (split 38 str).
Proof.
  unfold decodeQueryString.
  destruct (map_throwing _ _) as [entries|e] eqn:Hentries; cbn [obind].
  - left. split; [by eexists|].
    apply map_throwing_Forall2 in Hentries.
    apply Forall_forall. intros comp Hin.
    apply list_elem_of_lookup in Hin as [i Hi].
    assert (Hi' : map (split 61) (split 38 str) !! i = Some (split 61 comp)).
    { change map with (@fmap list _). by rewrite list_lookup_fmap, Hi. }
    destruct (Forall2_lookup_l _ _ _ _ _ Hentries Hi') as (entry & _ & Hg).
    unfold component_value.
    destruct (decodeURIComponent _) as [d|]; [by exists d|done].
  - right. apply map_throwing_rejects in Hentries.
    change map with (@fmap list _) in Hentries.
    apply Exists_fmap in Hentries.
    assert (e = URIError_malformed) as ->.
    { apply Exists_exists in Hentries as (comp & _ & Hg).
      unfold compose in Hg. cbv beta in Hg. fold (component_value comp) in Hg.
      destruct (decodeURIComponent (component_value comp)) as [d|e'] eqn:Hd; [done|].
      cbn [obind] in Hg. injection Hg as <-.
      by apply Decode_error in Hd. }
    split; [done|].
    eapply Exists_impl; [exact Hentries|]. intros comp Hg.
    unfold compose in Hg. cbv beta in Hg. fold (component_value comp) in Hg.
    destruct (decodeURIComponent (component_value comp)) as [d|e']; [done|].
    cbn [obind] in Hg. by injection Hg as ->.
Qed.

Lemma Object_fromEntries_snoc (l : list (jsstring * jsstring)) kv :
  Object_fromEntries (l ++ [kv]) = <[kv.1 := kv.2]> (Object_fromEntries l).
Proof. unfold Object_fromEntries. by rewrite foldl_app. Qed.

Lemma Object_fromEntries_lookup (l : list (jsstring * jsstring)) k :
  Object_fromEntries l !! k
  = snd <$> List.find (fun kv => bool_decide (kv.1 = k)) (reverse l).
Proof.
  induction l as [|kv l IH] using rev_ind; [done|].
  rewrite Object_fromEntries_snoc, reverse_snoc. cbn [List.find].
  case_bool_decide as Hk.
  - rewrite Hk. by rewrite lookup_insert_eq.
  - by rewrite lookup_insert_ne.
Qed.

(** In the mapping [decodeQueryString] returns, a key is bound to the
    decoded value of the last component with that key, and a key of no
    component is not bound. *)
Theorem decodeQueryString_last_wins str m k :
  decodeQueryString str = Resolved m ->
  m !! k
  = match List.find (fun comp => bool_decide (component_key comp = k))
                    (reverse (split 38 str)) with
    | Some comp =>
        match decodeURIComponent (component_value comp) with
        | Resolved d => Some d
        | Rejected _ => None
        end
    | None => None
    end.
Proof.
  unfold decodeQueryString.
  destruct (map_throwing _ _) as [entries|] eqn:Hentries; [|done].
  cbn [obind]. intros [= <-]. rewrite Object_fromEntries_lookup.
  apply map_throwing_Forall2 in Hentries.
  change map with (@fmap list _) in Hentries.
  apply Forall2_fmap_l in Hentries. apply Forall2_reverse in Hentries.
  induction Hentries as [|comp entry comps entries' Hg _ IH]; [done|].
  cbn [List.find]. unfold compose in Hg. cbv beta in Hg.
  fold (component_value comp) in Hg. fold (component_key comp) in Hg.
  destruct (decodeURIComponent (component_value comp)) as [d|] eqn:Hd; [|done].
  cbn [obind] in Hg. injection Hg as <-. cbn [fst].
  case_bool_decide; [cbv iota; by rewrite Hd|exact IH].
Qed.

(** Of a component with more than one ["="] only what stands between
    the first and the second is the value: what follows the second ["="]
    is dropped. *)
Theorem decodeQueryString_second_equals k v rest :
  query_safe k -> query_safe v -> Forall (fun c => c <> 38) rest ->
  decodeQueryString (k ++ js "=" ++ v ++ js "=" ++ rest)
  = obind (decodeURIComponent (SStr v)) (fun d => Resolved {[ k := d ]}).
Proof.
  intros Hk Hv Hrest. unfold decodeQueryString.
  change (js "=") with [61]. cbn [app].
  rewrite (split_no_sep 38).
  - cbn [map]. rewrite split_app_sep by by apply query_safe_eq.
    rewrite split_app_sep by by apply query_safe_eq.
    cbn [map_throwing lookup list_lookup slot ToString].
    destruct (decodeURIComponent (SStr v)); [|done]. cbn [obind].
    unfold Object_fromEntries. cbn [foldl fst snd]. by rewrite insert_empty.
  - apply Forall_app. split; [by apply query_safe_amp|].
    constructor; [done|]. apply Forall_app. split; [by apply query_safe_amp|].
    by constructor.
Qed.

End CodecMore.

(** ** More of the transport *)

Section TransportMore.
Context {num : JSNumber}.
Variable platform : Platform.

(** *** What a call leaves in the host *)

Lemma fetchAndParse_host request w :
  (fetchAndParse platform request w).1 = (fetch platform request w).1.
Proof.
  unfold fetchAndParse, try_catch, fetchAndParse_try, bind, fetchAndParse_catch,
    lift, throw, ret.
  destruct (fetch platform request w) as [w1 [response|e]]; cbn [fst];
    repeat case_match; simplify_eq; done.
Qed.

Lemma fetchWithCallbacks_timers request handler w :
  timers (fetchWithCallbacks platform request handler w).1
  = timers (fetch platform request w).1.
Proof.
  unfold fetchWithCallbacks, try_catch, bind, call_onSuccess, call_onError, lift, ret.
  destruct (fetch platform request w) as [w1 [response|e]]; cbn [fst]; [|done].
  destruct (text response); [|done].
  by destruct (onSuccess handler _).
Qed.

Lemma fetch_timers request w : timers (fetch platform request w).1 ⊆ timers w.
Proof.
  unfold fetch, createTimeoutSignal.
  destruct (timeoutMs request) as [ms|]; cbn.
  - etrans; [apply delete_mono, fire_all_timers|]. cbn.
    rewrite delete_insert_eq. apply delete_subseteq.
  - etrans; [apply fire_all_timers|done].
Qed.

(** Neither [fetchAndParse] nor [fetchWithCallbacks] leaves a timer
    pending that was not pending before the call, however the call ends. *)
Theorem no_timer_left_behind request handler w :
  timers (fetchAndParse platform request w).1 ⊆ timers w
  /\ timers (fetchWithCallbacks platform request handler w).1 ⊆ timers w.
Proof.
  rewrite fetchAndParse_host, fetchWithCallbacks_timers.
  split; apply fetch_timers.
Qed.

(** *** One call of the HTTP capability *)

Lemma fetch_calls_app (l1 l2 : list Event) :
  fetch_calls (l1 ++ l2) = fetch_calls l1 ++ fetch_calls l2.
Proof. unfold fetch_calls. apply omap_app. Qed.

Lemma fetch_calls_transport request w :
  fetch_calls (transport_events platform request w)
  = [(url request, sent_init platform request w)].
Proof. unfold transport_events. by destruct (timeoutMs request). Qed.

(** [fetchAndParse] and [fetchWithCallbacks] each call the HTTP
    capability exactly once, whatever it answers, and with the same
    arguments: the URL and the method of the request, its headers or
    [DEFAULT_HEADERS] when it has none, and its body as it is when that is
    a string and through [JSON.stringify] when it is not. *)
Theorem one_underlying_call request handler w :
  exists init,
    fetch_calls (log (fetchAndParse platform request w).1)
    = fetch_calls (log w) ++ [(url request, init)]
    /\ fetch_calls (log (fetchWithCallbacks platform request handler w).1)
       = fetch_calls (log w) ++ [(url request, init)]
    /\ init_method init = method request
    /\ init_headers init = match req_headers request with
                           | Some h => h
                           | None => DEFAULT_HEADERS
                           end
    /\ init_body init = match body request with
                        | VStr s => Some s
                        | b => JSON_stringify platform b
                        end.
Proof.
  exists (sent_init platform request w). split; [|split; [|done]].
  - rewrite fetchAndParse_host, fetch_log, fetch_calls_app.
    by rewrite fetch_calls_transport.
  - pose proof (fetch_log platform request w) as Hlog.
    unfold fetchWithCallbacks, try_catch, bind, call_onSuccess, call_onError, lift, ret.
    destruct (fetch platform request w) as [w1 [response|e]]; cbn [fst] in *.
    + destruct (text response); cbn [fst].
      * destruct (onSuccess handler _); cbn [fst record log];
          rewrite !fetch_calls_app, Hlog, fetch_calls_app, fetch_calls_transport;
          cbn; by rewrite ?app_nil_r.
      * cbn [fst record log].
        rewrite !fetch_calls_app, Hlog, fetch_calls_app, fetch_calls_transport.
        cbn. by rewrite app_nil_r.
    + cbn [fst record log].
      rewrite !fetch_calls_app, Hlog, fetch_calls_app, fetch_calls_transport.
      cbn. by rewrite app_nil_r.
Qed.

(** *** The flattened headers *)

Lemma Headers_get_absent (hs : list (jsstring * jsstring)) name :
  name ∉ hs.*1 -> Headers_get hs name = None.
Proof.
  unfold Headers_get. induction hs as [|[k v] hs IH]; [done|].
  cbn [fmap list_fmap fst List.find]. intros Hin.
  apply not_elem_of_cons in Hin as [Hne Hin].
  rewrite bool_decide_eq_false_2 by done. by apply IH.
Qed.

Lemma flatten_lookup (hs : list (jsstring * jsstring)) name :
  NoDup hs.*1 -> name <> js "__proto__" -> forall o : gmap jsstring jsstring,
  foldl set_header o hs !! name
  = match Headers_get hs name with
    | Some v => Some v
    | None => o !! name
    end.
Proof.
  intros Hnd Hname. induction hs as [|[k v] hs IH]; intros o; [done|].
  cbn [fmap list_fmap fst] in Hnd. apply NoDup_cons in Hnd as [Hk Hnd].
  cbn [foldl]. rewrite IH by done.
  unfold Headers_get at 2. cbn [List.find fst].
  fold (Headers_get hs name). unfold set_header. cbn [fst snd].
  destruct (decide (k = name)) as [->|Hne].
  - rewrite (bool_decide_eq_true_2 (name = name)) by done.
    rewrite (bool_decide_eq_false_2 _ Hname).
    rewrite Headers_get_absent by done. cbn. apply lookup_insert_eq.
  - rewrite (bool_decide_eq_false_2 (k = name)) by done.
    change (snd <$> List.find _ hs) with (Headers_get hs name).
    destruct (Headers_get hs name); [done|].
    case_bool_decide; [done|]. by rewrite lookup_insert_ne.
Qed.

Lemma flatten_proto (hs : list (jsstring * jsstring)) :
  forall o : gmap jsstring jsstring,
  foldl set_header o hs !! js "__proto__" = o !! js "__proto__".
Proof.
  induction hs as [|[k v] hs IH]; intros o; [done|].
  cbn [foldl]. rewrite IH. unfold set_header. cbn [fst snd].
  case_bool_decide; [done|]. by rewrite lookup_insert_ne.
Qed.

(** For a response whose header names are distinct, the header mapping
    handed to [onSuccess] binds every name to what [headers.get] returns
    for it, except the name [__proto__], which it never binds. *)
Theorem raw_headers_agree response decodedBody name :
  NoDup (headers response).*1 ->
  raw_headers (raw_response response decodedBody) !! name
  = if bool_decide (name = js "__proto__") then None
    else Headers_get (headers response) name.
Proof.
  intros Hnd. cbn [raw_response raw_headers]. case_bool_decide as Hname.
  - rewrite Hname. by rewrite flatten_proto.
  - rewrite flatten_lookup by done. by destruct (Headers_get _ _).
Qed.

(** *** How the chain of [fetchWithCallbacks] ends *)

(** The promise chain of [fetchWithCallbacks] ends rejected only when
    [handler.onError] was called and threw, and then with what it threw. *)
Theorem fetchWithCallbacks_rejects request handler w e :
  (fetchWithCallbacks platform request handler w).2 = Rejected e ->
  exists e0,
    EvOnError e0 ∈ log (fetchWithCallbacks platform request handler w).1
    /\ onError handler e0 = Rejected e.
Proof.
  unfold fetchWithCallbacks, try_catch, bind, call_onSuccess, call_onError, lift, ret.
  destruct (fetch platform request w) as [w1 [response|e1]]; cbn [fst snd].
  - destruct (text response) as [decodedBody|e1]; cbn [fst snd].
    + destruct (onSuccess handler _) as [[]|e1]; cbn [fst snd]; [done|].
      intros He. exists e1. split; [|done]. cbn. set_solver.
    + intros He. exists e1. split; [|done]. cbn. set_solver.
  - intros He. exists e1. split; [|done]. cbn. set_solver.
Qed.

End TransportMore.

Section TimeoutSignalFacts.
Context {num : JSNumber}.

(** [createTimeoutSignal] followed by the [cancelTimeout] it returned
    leaves the pending timers as they were and aborts no controller,
    provided the identifier of the new timer was free. *)
Theorem timeout_signal_round_trip timeoutMs w :
  timers w !! next_timer w = None ->
  timers (bind (createTimeoutSignal timeoutMs) cancelTimeout w).1 = timers w
  /\ aborted (bind (createTimeoutSignal timeoutMs) cancelTimeout w).1 = aborted w.
Proof.
  intros Hfresh. destruct timeoutMs as [ms|]; cbn; [|done].
  split; [|done]. by apply delete_insert_id.
Qed.

End TimeoutSignalFacts.

(** ** More of the authenticator *)

Section AuthMore.
Context {num : JSNumber} {ext : AuthExternals}.

(** On the OAuth 2.0 path [linkWithUser] is not used: [authenticate]
    makes the same calls and ends the same way with and without it. *)
Theorem authenticate_oauth2_ignores_link this credentials linkWithUser calls :
  oauth2_with_redirect credentials ->
  authenticate this credentials linkWithUser calls
  = authenticate this credentials None calls.
Proof.
  intros Hb. apply is_oauth2_redirect_spec in Hb.
  unfold authenticate. by rewrite Hb.
Qed.

(** Every request [authenticate] hands to [fetchJSON] is a POST whose
    body is the payload of the credentials and whose [user] is
    [linkWithUser]; its [tokenType] is ["access"] with a user and ["none"]
    without one. *)
Theorem login_request_shape this credentials linkWithUser request :
  CallFetchJSON request ∈ (authenticate this credentials linkWithUser []).1 ->
  fr_method request = js "POST"
  /\ fr_body request = VObj (payload credentials)
  /\ fr_user request = linkWithUser
  /\ (fr_tokenType request = js "access" /\ is_Some (fr_user request)
      \/ fr_tokenType request = js "none" /\ fr_user request = None).
Proof.
  destruct (is_oauth2_redirect credentials) eqn:Hb.
  - unfold authenticate. rewrite Hb. unfold bind, call, lift. cbn [app].
    destruct (oauth2_initiate this credentials); cbn [fst];
      intros Hin; apply list_elem_of_singleton in Hin; discriminate.
  - destruct (getAppUrl this) as [appUrl|e] eqn:Happ.
    + rewrite (authenticate_direct _ _ _ appUrl) by done. cbn [fst].
      intros Hin. apply elem_of_cons in Hin as [?|Hin]; [discriminate|].
      apply list_elem_of_singleton in Hin. injection Hin as ->.
      repeat split. destruct linkWithUser; [left|right]; by eauto.
    + unfold authenticate. rewrite Hb. unfold bind, call. rewrite Happ.
      cbn [app fst]. intros Hin. apply list_elem_of_singleton in Hin. discriminate.
Qed.

Lemma get_property_other (before after : list (jsstring * JSValue)) k v name :
  name <> k ->
  get_property (VObj (before ++ (k, v) :: after)) name
  = get_property (VObj (before ++ after)) name.
Proof.
  intros Hne. cbn [get_property].
  induction before as [|[k' v'] before IH]; cbn [app List.find fst].
  - by rewrite bool_decide_eq_false_2 by done.
  - case_bool_decide; [done|]. exact IH.
Qed.

(** A field of the login response other than [user_id],
    [access_token] and [refresh_token] does not change what [authenticate]
    returns or throws. *)
Theorem login_response_other_fields this credentials linkWithUser appUrl
    before after k v :
  is_oauth2_redirect credentials = false ->
  getAppUrl this = Resolved appUrl ->
  fetchJSON this (direct_request appUrl credentials linkWithUser)
  = Resolved (VObj (before ++ (k, v) :: after)) ->
  k <> js "user_id" -> k <> js "access_token" -> k <> js "refresh_token" ->
  (authenticate this credentials linkWithUser []).2
  = read_login_response (VObj (before ++ after)).
Proof.
  intros Hb Happ Hresp H1 H2 H3.
  rewrite (authenticate_direct _ _ _ appUrl) by done. rewrite Hresp.
  cbn [snd obind]. unfold read_login_response.
  by rewrite !get_property_other by done.
Qed.


End AuthMore.

(** ** The further properties on concrete inputs *)

Lemma generateRandomString_picks_witness :
  length (generateRandomString (fun i n => N.of_nat i mod n) 5 (js "abc")) = 5%nat
  /\ Forall (fun c => c ∈ js "abc")
            (generateRandomString (fun i n => N.of_nat i mod n) 5 (js "abc")).
Proof.
  apply (generateRandomString_picks (num := Z_JSNumber)
           (fun i n => N.of_nat i mod n) 5 (js "abc")).
  - discriminate.
  - intros i. apply N.mod_lt. discriminate.
Defined.

Lemma encodeQueryString_throws_witness :
  encodeQueryString [(js "a", SStr (js "x")); (js "b", SStr [0xD800])]
  = Rejected URIError_malformed.
Proof.
  refine (encodeQueryString_throws (num := Z_JSNumber)
            [(js "a", SStr (js "x")); (js "b", SStr [0xD800])] _).
  repeat constructor.
Defined.

Lemma encodeUrl_unchanged_witness :
  exists q, q <> []
    /\ encodeQueryString [(js "skip", SUndefined); (js "n", SNum 7%Z)] = Resolved q
    /\ js "https://x/y?n=7" = js "https://x/y" ++ js "?" ++ q.
Proof.
  refine (encodeUrl_unchanged (num := Z_JSNumber) (js "https://x/y")
            [(js "skip", SUndefined); (js "n", SNum (num := Z_JSNumber) 7%Z)]
            (js "https://x/y?n=7") _).
  reflexivity.
Defined.

Lemma decodeQueryString_last_wins_witness :
  ({[ js "a" := js "2"; js "b" := js "undefined" ]} : gmap jsstring jsstring) !! js "a"
  = Some (js "2").
Proof.
  refine (decodeQueryString_last_wins (num := Z_JSNumber) (js "a=1&b&a=2")
            {[ js "a" := js "2"; js "b" := js "undefined" ]} (js "a") _).
  vm_compute. reflexivity.
Defined.

Lemma decodeQueryString_second_equals_witness :
  decodeQueryString (js "k" ++ js "=" ++ js "a%20b" ++ js "=" ++ js "c=d")
  = Resolved {[ js "k" := js "a b" ]}.
Proof.
  refine (decodeQueryString_second_equals (num := Z_JSNumber)
            (js "k") (js "a%20b") (js "c=d") _ _ _);
    repeat constructor; discriminate.
Defined.

Lemma fetchAndParse_json_success_witness :
  (fetchAndParse (answering {| fired := []; settled := Resolved response_200 |})
     get_y idle).2
  = Resolved (VObj [(js "a", VNum 1%Z)]).
Proof.
  refine (fetchAndParse_json_success
            (answering {| fired := []; settled := Resolved response_200 |})
            get_y idle response_200 (js "application/json; charset=utf-8") _ _ _ _);
    reflexivity.
Defined.

Lemma fetchAndParse_unexpected_content_type_witness :
  (fetchAndParse (answering {| fired := []; settled := Resolved response_html |})
     get_y idle).2
  = Rejected (JSError Error_
       (js "Request failed (GET https://x/y): Expected an empty or a JSON response")).
Proof.
  refine (fetchAndParse_unexpected_content_type
            (answering {| fired := []; settled := Resolved response_html |})
            get_y idle response_html (js "text/html") _ _ _ _);
    reflexivity.
Defined.

Lemma fetchAndParse_unexpected_status_witness :
  (fetchAndParse (answering {| fired := []; settled := Resolved response_502 |})
     get_y idle).2
  = Rejected (JSError Error_
       (js "Request failed (GET https://x/y): Unexpected status code (502 Bad Gateway)")).
Proof.
  refine (fetchAndParse_unexpected_status
            (answering {| fired := []; settled := Resolved response_502 |})
            get_y idle response_502 _ _ _);
    reflexivity.
Defined.

Lemma raw_headers_agree_witness :
  raw_headers (raw_response response_200 []) !! js "content-type"
  = Some (js "application/json; charset=utf-8").
Proof.
  refine (raw_headers_agree response_200 [] (js "content-type") _).
  apply (bool_decide_unpack _). vm_compute. reflexivity.
Defined.

Lemma fetchWithCallbacks_rejects_witness :
  exists e0,
    EvOnError e0
    ∈ log (fetchWithCallbacks
             (answering {| fired := []; settled := Rejected boom |})
             get_y failing_handler idle).1
    /\ onError failing_handler e0 = Rejected boom.
Proof.
  apply (fetchWithCallbacks_rejects
           (answering {| fired := []; settled := Rejected boom |})
           get_y failing_handler idle boom).
  reflexivity.
Defined.

Lemma timeout_signal_round_trip_witness :
  timers (bind (createTimeoutSignal (Some 5000%Z)) cancelTimeout idle).1 = timers idle
  /\ aborted (bind (createTimeoutSignal (Some 5000%Z)) cancelTimeout idle).1
     = aborted idle.
Proof.
  apply (timeout_signal_round_trip (num := Z_JSNumber) (Some 5000%Z) idle).
  reflexivity.
Defined.

Lemma authenticate_oauth2_ignores_link_witness :
  authenticate (logging_in VNull) oauth2_google (Some (js "user-1")) []
  = authenticate (logging_in VNull) oauth2_google None [].
Proof.
  apply (authenticate_oauth2_ignores_link (logging_in VNull) oauth2_google
           (Some (js "user-1")) []).
  split; [reflexivity|]. by eexists.
Defined.

Lemma login_request_shape_witness :
  exists request : @FetcherRequest Z_JSNumber sample_externals,
    fr_method request = js "POST"
    /\ fr_body request = VObj (payload local_userpass)
    /\ fr_user request = Some (js "user-1")
    /\ (fr_tokenType request = js "access" /\ is_Some (fr_user request)
        \/ fr_tokenType request = js "none" /\ fr_user request = None).
Proof.
  eexists.
  apply (login_request_shape (logging_in VNull) local_userpass (Some (js "user-1"))).
  vm_compute. apply list_elem_of_In. right. left. reflexivity.
Defined.

Lemma login_response_other_fields_witness :
  (authenticate
     (logging_in (VObj [(js "user_id", VStr (js "u1"));
                        (js "device_id", VStr (js "d1"));
                        (js "access_token", VStr (js "tok"))]))
     local_userpass None []).2
  = Resolved {| userId := js "u1"; accessToken := js "tok"; refreshToken := VNull |}.
Proof.
  refine (login_response_other_fields
            (logging_in (VObj [(js "user_id", VStr (js "u1"));
                               (js "device_id", VStr (js "d1"));
                               (js "access_token", VStr (js "tok"))]))
            local_userpass None (js "https://x/app")
            [(js "user_id", VStr (js "u1"))]
            [(js "access_token", VStr (js "tok"))]
            (js "device_id") (VStr (js "d1")) _ _ _ _ _ _);
    (reflexivity || discriminate).
Defined.

